(** * An in-memory file system tree (src/main.py), embedded and verified

    The program keeps a tree of [FileSystemNode]s under a root named "/".
    Every node owns two Python dicts: [children] (name -> node) and
    [permissions] (user -> string).  The order of [children] is observable
    (through [list_directory] and [search]), so it is kept as an
    insertion-ordered association list; the order of [permissions] is not,
    so it is a [gmap].

    Methods mutate their receiver and may raise [ValueError]; a raise keeps
    whatever was mutated before it.  A method is therefore a function from
    the receiver to the receiver afterwards, paired with its outcome. *)

From Stdlib Require Import String Ascii List Bool.
From stdpp Require Import base option list strings gmap.
Import ListNotations.

Local Open Scope string_scope.
Local Open Scope list_scope.

(** ** Python string primitives used on paths *)

Module PyStr.

Definition is_slash (c : ascii) : bool := Ascii.eqb c "/"%char.

(** [s.lstrip("/")] *)
Fixpoint lstrip (s : string) : string :=
  match s with
  | EmptyString => EmptyString
  | String c s' => if is_slash c then lstrip s' else s
  end.

(** [s.rstrip("/")] *)
Fixpoint rstrip (s : string) : string :=
  match s with
  | EmptyString => EmptyString
  | String c s' =>
      match rstrip s' with
      | EmptyString => if is_slash c then EmptyString else String c EmptyString
      | r => String c r
      end
  end.

(** [s.strip("/")]; [s.strip("//")] is the same call, the argument being
    a set of characters. *)
Definition strip (s : string) : string := rstrip (lstrip s).

(** [s.split("/")]: never empty, [""] splits into one empty segment. *)
Fixpoint split (s : string) : list string :=
  match s with
  | EmptyString => [EmptyString]
  | String c s' =>
      if is_slash c then EmptyString :: split s'
      else match split s' with
           | h :: t => String c h :: t
           | [] => [String c EmptyString]
           end
  end.

(** ["/".join(l)] *)
Definition join (l : list string) : string := String.concat "/" l.

(** A string without any '/'. *)
Fixpoint slash_free (s : string) : bool :=
  match s with
  | EmptyString => true
  | String c s' => negb (is_slash c) && slash_free s'
  end.

Definition nonempty (s : string) : bool :=
  match s with EmptyString => false | _ => true end.

End PyStr.

(** [path.strip("/").split("/")], the parsing shared by every operation. *)
Definition parts_of (path : string) : list string :=
  PyStr.split (PyStr.strip path).

(** [parts[:-1]] and [parts[-1]] *)
Definition init_parts (parts : list string) : list string := removelast parts.
Definition last_part (parts : list string) : string := List.last parts "".

(** ** Nodes *)

#[local] Unset Elimination Schemes.
Inductive FileSystemNode : Type :=
  mkNode {
    name : string;
    is_file : bool;
    children : list (string * FileSystemNode);
    permissions : gmap string string
  }.
#[local] Set Elimination Schemes.

(** The [ValueError]s of the program, one constructor per raise site; the
    argument is what the message interpolates. *)
Inductive error : Type :=
| CannotAddChildToFile (node_name : string)     (* "Cannot add child to a file: .."   *)
| ChildAlreadyExists (child_name : string)      (* "Child with name '..' already exists." *)
| ChildNotFound (child_name : string)           (* "Child '..' not found."            *)
| CannotCreateInsideFile (node_name : string)   (* "Cannot create path inside a file: .." *)
| PathConflict (path : string)                  (* "Path conflict: '..' already exists as a different type." *)
| PathNotFound                                  (* "Path not found."                  *)
| NotADirectory.                                (* "Path is not a directory."         *)

(** The error kinds the documentation gives to these messages.  The one
    raise of [list_directory] covers both a path that does not resolve and
    a path that resolves to a file. *)
Inductive error_kind : Type :=
  InvalidOperation | AlreadyExists | TypeConflict | NotFound.

Definition kind_of (e : error) : error_kind :=
  match e with
  | CannotAddChildToFile _ | CannotCreateInsideFile _ | NotADirectory => InvalidOperation
  | ChildAlreadyExists _ => AlreadyExists
  | PathConflict _ => TypeConflict
  | ChildNotFound _ | PathNotFound => NotFound
  end.

Inductive outcome (A : Type) : Type :=
| Ok (a : A)
| Raise (e : error).
Arguments Ok {A} a.
Arguments Raise {A} e.

(** ** Ordered dicts as association lists *)

Module Dict.
Section Dict.
Context {V : Type}.

(** [d.get(k)] *)
Fixpoint get (k : string) (d : list (string * V)) : option V :=
  match d with
  | [] => None
  | (k', v) :: d' => if String.eqb k' k then Some v else get k d'
  end.

(** [k in d] *)
Definition mem (k : string) (d : list (string * V)) : bool :=
  match get k d with Some _ => true | None => false end.

(** [d[k] = v] for a key that is present: the entry keeps its place. *)
Fixpoint replace (k : string) (v : V) (d : list (string * V)) : list (string * V) :=
  match d with
  | [] => []
  | (k', v') :: d' =>
      if String.eqb k' k then (k', v) :: d' else (k', v') :: replace k v d'
  end.

(** [d[k] = v]: a new key goes last. *)
Definition set (k : string) (v : V) (d : list (string * V)) : list (string * V) :=
  if mem k d then replace k v d else d ++ [(k, v)].

(** [del d[k]] *)
Fixpoint del (k : string) (d : list (string * V)) : list (string * V) :=
  match d with
  | [] => []
  | (k', v) :: d' => if String.eqb k' k then del k d' else (k', v) :: del k d'
  end.

(** [list(d.keys())] *)
Definition keys (d : list (string * V)) : list string := map fst d.
End Dict.
End Dict.

(** Induction on a node gives the property for every child. *)
Section NodeInduction.
Variable P : FileSystemNode -> Prop.
Hypothesis step :
  forall n f d p, Forall (fun entry => P (snd entry)) d -> P (mkNode n f d p).

Fixpoint FileSystemNode_ind (node : FileSystemNode) : P node :=
  match node with
  | mkNode n f d p =>
      step n f d p
        ((fix entries (l : list (string * FileSystemNode))
            : Forall (fun entry => P (snd entry)) l :=
            match l with
            | [] => List.Forall_nil _
            | e :: l' => List.Forall_cons _ e l' (FileSystemNode_ind (snd e)) (entries l')
            end) d)
  end.
End NodeInduction.

(** ** FileSystemNode methods

    A method takes the receiver [self] and returns the receiver after the
    call together with the value returned or the error raised. *)

Module Node.

Definition with_children (self : FileSystemNode) (d : list (string * FileSystemNode))
  : FileSystemNode :=
  mkNode (name self) (is_file self) d (permissions self).

Definition with_permissions (self : FileSystemNode) (p : gmap string string)
  : FileSystemNode :=
  mkNode (name self) (is_file self) (children self) p.

Definition add_child (child : FileSystemNode) (self : FileSystemNode)
  : FileSystemNode * outcome unit :=
  if is_file self then (self, Raise (CannotAddChildToFile (name self)))
  else if Dict.mem (name child) (children self)
       then (self, Raise (ChildAlreadyExists (name child)))
       else (with_children self (Dict.set (name child) child (children self)), Ok tt).

Definition remove_child (child_name : string) (self : FileSystemNode)
  : FileSystemNode * outcome unit :=
  match children self with
  | [] => (self, Raise (ChildNotFound child_name))
  | _ =>
      if negb (Dict.mem child_name (children self))
      then (self, Raise (ChildNotFound child_name))
      else (with_children self (Dict.del child_name (children self)), Ok tt)
  end.

Definition get_child (child_name : string) (self : FileSystemNode)
  : option FileSystemNode :=
  Dict.get child_name (children self).

Definition set_permissions (user perm : string) (self : FileSystemNode)
  : FileSystemNode * outcome unit :=
  (with_permissions self (<[user := perm]> (permissions self)), Ok tt).

Definition get_permissions (user : string) (self : FileSystemNode)
  : option string :=
  permissions self !! user.

(** *** References into the tree

    The program holds references to nodes inside the tree ([current],
    [parent], [node]) and mutates through them.  The tree has no sharing
    (every node is made by [create] and owned by one parent), so a
    reference is the list of keys leading to the node, and a mutation
    through it rebuilds the ancestors around the new node. *)

(** The child under [key] has become [child]; its place in the dict is
    unchanged. *)
Definition put_child (key : string) (child : FileSystemNode) (self : FileSystemNode)
  : FileSystemNode :=
  with_children self (Dict.replace key child (children self)).

(** The node that [path] leads to from [current], by plain dict lookups,
    has become [node]. *)
Fixpoint store (path : list string) (node : FileSystemNode) (current : FileSystemNode)
  : FileSystemNode :=
  match path with
  | [] => node
  | part :: rest =>
      match get_child part current with
      | Some child => put_child part (store rest node child) current
      | None => current
      end
  end.

End Node.

(** ** FileSystem

    The state of a [FileSystem] object is its root node. *)

Module FileSystem.

(** [FileSystem.__init__] *)
Definition init : FileSystemNode := mkNode "/" false [] ∅.

(** The loop of [_traverse], from [current] on. *)
Fixpoint traverse_from (current : option FileSystemNode) (path : list string)
  : option FileSystemNode :=
  match path with
  | [] => current
  | part :: rest =>
      match current with
      | None => None
      | Some node =>
          if is_file node then None
          else traverse_from (Node.get_child part node) rest
      end
  end.

Definition _traverse (path : list string) (root : FileSystemNode)
  : option FileSystemNode :=
  traverse_from (Some root) path.

(** [FileSystemNode(name=part, is_file=is_file if i == len(parts) - 1
    else False)], where [rest] are the segments after [part]. *)
Definition new_node (file : bool) (part : string) (rest : list string)
  : FileSystemNode :=
  mkNode part (match rest with [] => file | _ => false end) [] ∅.

(** The loop of [create] from [current] on, followed by the final type
    check.  [parts] are the segments still to walk. *)
Fixpoint create_from (path : string) (file : bool) (parts : list string)
    (current : FileSystemNode) : FileSystemNode * outcome unit :=
  match parts with
  | [] =>
      if Bool.eqb (is_file current) file then (current, Ok tt)
      else (current, Raise (PathConflict path))
  | part :: rest =>
      if is_file current
      then (current, Raise (CannotCreateInsideFile (name current)))
      else
        match Node.get_child part current with
        | Some child =>
            let '(child', r) := create_from path file rest child in
            (Node.put_child part child' current, r)
        | None =>
            let new_node := new_node file part rest in
            match Node.add_child new_node current with
            | (current', Raise e) => (current', Raise e)
            | (current', Ok _) =>
                let '(child', r) := create_from path file rest new_node in
                (Node.put_child part child' current', r)
            end
        end
  end.

Definition create (path : string) (file : bool) (root : FileSystemNode)
  : FileSystemNode * outcome unit :=
  create_from path file (parts_of path) root.

Definition delete (path : string) (root : FileSystemNode)
  : FileSystemNode * outcome unit :=
  let parts := parts_of path in
  match _traverse (init_parts parts) root with
  | None => (root, Raise PathNotFound)
  | Some parent =>
      let '(parent', r) := Node.remove_child (last_part parts) parent in
      (Node.store (init_parts parts) parent' root, r)
  end.

Definition list_directory (path : string) (root : FileSystemNode)
  : FileSystemNode * outcome (list string) :=
  match _traverse (parts_of path) root with
  | None => (root, Raise NotADirectory)
  | Some node =>
      if is_file node then (root, Raise NotADirectory)
      else (root, Ok (Dict.keys (children node)))
  end.

(** [search(name, node, path)] for a given [node]. *)
Fixpoint search_from (name0 : string) (node : FileSystemNode) (path : string)
  : list string :=
  (if String.eqb (name node) name0
   then [match path with EmptyString => "/" | _ => path end]
   else [])
  ++
  (if is_file node then []
   else
     flat_map
       (fun entry =>
          search_from name0 (snd entry)
            (PyStr.strip (path +:+ "/" +:+ fst entry)))
       (children node)).

(** [search(name)]: [node] defaults to the root and [path] to [""]. *)
Definition search (name0 : string) (root : FileSystemNode)
  : FileSystemNode * outcome (list string) :=
  (root, Ok (search_from name0 root "")).

Definition set_permissions (path user perm : string) (root : FileSystemNode)
  : FileSystemNode * outcome unit :=
  match _traverse (parts_of path) root with
  | None => (root, Raise PathNotFound)
  | Some node =>
      let '(node', r) := Node.set_permissions user perm node in
      (Node.store (parts_of path) node' root, r)
  end.

Definition get_permissions (path user : string) (root : FileSystemNode)
  : FileSystemNode * outcome (option string) :=
  match _traverse (parts_of path) root with
  | None => (root, Raise PathNotFound)
  | Some node => (root, Ok (Node.get_permissions user node))
  end.

(** A sequence of mutating calls, errors ignored. *)
Definition run (ops : list (FileSystemNode -> FileSystemNode * outcome unit))
    (root : FileSystemNode) : FileSystemNode :=
  fold_left (fun fs op => fst (op fs)) ops root.

(** The scenario of the documentation. *)
Definition scenario : FileSystemNode :=
  run [create "dir/subdir" false;
       create "dir/subdir/file1.txt" true;
       create "dir/file3.txt" true] init.

End FileSystem.

(** ** display_tree

    [display_tree(node, indent)] prints one line per call; the output is
    the list of the lines printed, in order. *)
Fixpoint display_tree (node : FileSystemNode) (indent : string) : list string :=
  if is_file node then [indent +:+ "- " +:+ name node]
  else
    (indent +:+ "+ " +:+ name node) ::
    flat_map (fun entry => display_tree (snd entry) (indent +:+ "  "))
      (children node).

(** ** Vocabulary of the properties *)

(** The operations of the interface as data, and the state each leaves. *)
Inductive operation : Type :=
| OpCreate (path : string) (file : bool)
| OpDelete (path : string)
| OpListDirectory (path : string)
| OpSearch (name0 : string)
| OpSetPermissions (path user perm : string)
| OpGetPermissions (path user : string).

Definition state_after (op : operation) (root : FileSystemNode) : FileSystemNode :=
  match op with
  | OpCreate path file => fst (FileSystem.create path file root)
  | OpDelete path => fst (FileSystem.delete path root)
  | OpListDirectory path => fst (FileSystem.list_directory path root)
  | OpSearch name0 => fst (FileSystem.search name0 root)
  | OpSetPermissions path user perm => fst (FileSystem.set_permissions path user perm root)
  | OpGetPermissions path user => fst (FileSystem.get_permissions path user root)
  end.

(** [everywhere P node]: [P] holds of [node] and of every node below it. *)
Fixpoint everywhere (P : FileSystemNode -> bool) (node : FileSystemNode) : bool :=
  P node && forallb (fun entry => everywhere P (snd entry)) (children node).

(** A file has an empty [children] dict. *)
Definition leaf_if_file (node : FileSystemNode) : bool :=
  if is_file node then match children node with [] => true | _ => false end
  else true.

(** Every file in the tree has an empty [children] dict. *)
Definition files_are_leaves : FileSystemNode -> bool := everywhere leaf_if_file.

(** No key of the [children] dict contains a '/'. *)
Definition keys_slash_free (node : FileSystemNode) : bool :=
  forallb PyStr.slash_free (Dict.keys (children node)).

(** No key of a [children] dict in the tree contains a '/'. *)
Definition slash_free_keys : FileSystemNode -> bool := everywhere keys_slash_free.

(** The tree with every [permissions] dict emptied: names, flags and
    [children] dicts of all nodes. *)
Fixpoint skeleton (node : FileSystemNode) : FileSystemNode :=
  mkNode (name node) (is_file node)
    (map (fun entry => (fst entry, skeleton (snd entry))) (children node)) ∅.

(** The nodes of the tree in depth-first order, parents first, children in
    dict order and only below directories; each with the keys that lead to
    it from the root, [keys] being those that lead to [node]. *)
Fixpoint walk (node : FileSystemNode) (keys : list string)
  : list (list string * FileSystemNode) :=
  (keys, node) ::
  (if is_file node then []
   else flat_map (fun entry => walk (snd entry) (keys ++ [fst entry])) (children node)).

(** How a list of keys is shown: empty keys dropped, the others joined by
    '/' with no slash in front, and "/" when nothing is left. *)
Definition joined (keys : list string) : string :=
  PyStr.join (List.filter PyStr.nonempty keys).

Definition shown (keys : list string) : string :=
  match joined keys with
  | EmptyString => "/"
  | _ => joined keys
  end.

(** The nodes of [found] whose name is [name0], each shown by its keys. *)
Definition matches (name0 : string) (found : list (list string * FileSystemNode))
  : list string :=
  map (fun entry => shown (fst entry))
    (List.filter (fun entry => String.eqb (name (snd entry)) name0) found).

(** A string with no '/' in front. *)
Definition no_lead (p : string) : bool :=
  match p with
  | String c _ => negb (PyStr.is_slash c)
  | EmptyString => true
  end.

(** A string of which [strip] takes nothing away. *)
Definition trimmed (p : string) : Prop :=
  no_lead p = true /\ PyStr.rstrip p = p.

(** What [strip] leaves of [p + "/" + k] for a trimmed [p] and a key [k]
    without slash. *)
Definition extend (p k : string) : string :=
  match k, p with
  | EmptyString, _ => p
  | _, EmptyString => k
  | _, _ => p +:+ "/" +:+ k
  end.

(** A node that differs from [node] in its permissions only. *)
Definition same_but_permissions (node' node : FileSystemNode) : Prop :=
  name node' = name node /\ is_file node' = is_file node /\
  children node' = children node.

(** [n] times two spaces. *)
Fixpoint pad (n : nat) : string :=
  match n with
  | O => EmptyString
  | S n' => pad n' +:+ "  "
  end.

(** The line [display_tree] prints for [node] at depth [depth]. *)
Definition line_of (indent : string) (depth : nat) (node : FileSystemNode) : string :=
  (indent +:+ pad depth) +:+ (if is_file node then "- " else "+ ") +:+ name node.

(** Every child is stored under its own name. *)
Definition keys_are_names (node : FileSystemNode) : bool :=
  forallb (fun entry => String.eqb (fst entry) (name (snd entry))) (children node).

(** Every node of the tree is stored under its own name. *)
Definition named_by_keys : FileSystemNode -> bool := everywhere keys_are_names.

(** An entry of a [children] dict whose child is stored under its name
    and is named by keys throughout. *)
Definition entry_named (entry : string * FileSystemNode) : bool :=
  String.eqb (fst entry) (name (snd entry)) && named_by_keys (snd entry).

(** The tree after a sequence of operations on the new tree. *)
Definition after_all (ops : list operation) : FileSystemNode :=
  fold_left (fun root op => state_after op root) ops FileSystem.init.

(** Every key of the [children] dict is non-empty and without '/'. *)
Definition keys_proper (node : FileSystemNode) : bool :=
  forallb (fun key => PyStr.nonempty key && PyStr.slash_free key)
    (Dict.keys (children node)).

(** Every key of a [children] dict in the tree is non-empty and without
    '/': the trees [create] makes from paths without empty segments. *)
Definition proper_keys : FileSystemNode -> bool := everywhere keys_proper.

(** The path of the node that [keys] lead to: "/" for the root, the keys
    joined by '/' for any other node. *)
Definition path_of (keys : list string) : string :=
  match keys with
  | [] => "/"
  | _ => PyStr.join keys
  end.

(** The nodes of [found] whose name is [name0], each by its path. *)
Definition found_paths (name0 : string) (found : list (list string * FileSystemNode))
  : list string :=
  map (fun entry => path_of (fst entry))
    (List.filter (fun entry => String.eqb (name (snd entry)) name0) found).

(** * Properties *)

(** ** Dicts *)

Section DictFacts.
Context {V : Type}.
Implicit Types (d : list (string * V)) (k : string) (v : V).

Lemma get_replace k v d :
  Dict.get k (Dict.replace k v d) =
  match Dict.get k d with Some _ => Some v | None => None end.
Proof.
  induction d as [|[k' v'] d IH]; simpl; [reflexivity|].
  destruct (String.eqb k' k) eqn:E; simpl; rewrite E; auto.
Qed.

Lemma get_replace_ne k k' v d :
  k <> k' -> Dict.get k' (Dict.replace k v d) = Dict.get k' d.
Proof.
  intros Hne. induction d as [|[k0 v0] d IH]; simpl; [reflexivity|].
  destruct (String.eqb_spec k0 k) as [->|Hk]; simpl.
  - destruct (String.eqb_spec k k'); [contradiction|reflexivity].
  - rewrite IH. reflexivity.
Qed.

Lemma replace_same k v d : Dict.get k d = Some v -> Dict.replace k v d = d.
Proof.
  induction d as [|[k' v'] d IH]; simpl; [reflexivity|].
  destruct (String.eqb k' k); intros H.
  - congruence.
  - rewrite IH; auto.
Qed.

Lemma replace_replace k v v' d :
  Dict.replace k v' (Dict.replace k v d) = Dict.replace k v' d.
Proof.
  induction d as [|[k' v0] d IH]; simpl; [reflexivity|].
  destruct (String.eqb k' k) eqn:E; simpl; rewrite E; congruence.
Qed.

Lemma replace_absent k v d : Dict.get k d = None -> Dict.replace k v d = d.
Proof.
  induction d as [|[k' v'] d IH]; simpl; [reflexivity|].
  destruct (String.eqb k' k); intros H; [discriminate|].
  rewrite IH; auto.
Qed.

Lemma get_snoc k v d : Dict.get k d = None -> Dict.get k (d ++ [(k, v)]) = Some v.
Proof.
  induction d as [|[k' v'] d IH]; simpl.
  - rewrite String.eqb_refl. reflexivity.
  - destruct (String.eqb k' k); [discriminate|auto].
Qed.

Lemma replace_snoc k v v' d :
  Dict.get k d = None -> Dict.replace k v' (d ++ [(k, v)]) = d ++ [(k, v')].
Proof.
  induction d as [|[k' v0] d IH]; simpl.
  - rewrite String.eqb_refl. reflexivity.
  - destruct (String.eqb k' k); [discriminate|]. intros H. rewrite IH; auto.
Qed.

Lemma set_absent k v d : Dict.get k d = None -> Dict.set k v d = d ++ [(k, v)].
Proof. intros H. unfold Dict.set, Dict.mem. rewrite H. reflexivity. Qed.

Lemma get_del k d : Dict.get k (Dict.del k d) = None.
Proof.
  induction d as [|[k' v'] d IH]; simpl; [reflexivity|].
  destruct (String.eqb k' k) eqn:E; simpl; [|rewrite E]; auto.
Qed.

Lemma keys_replace k v d : Dict.keys (Dict.replace k v d) = Dict.keys d.
Proof.
  unfold Dict.keys. induction d as [|[k' v'] d IH]; simpl; [reflexivity|].
  destruct (String.eqb k' k); simpl; congruence.
Qed.

Lemma keys_del k d :
  Dict.keys (Dict.del k d) = List.filter (fun k' => negb (String.eqb k' k)) (Dict.keys d).
Proof.
  unfold Dict.keys. induction d as [|[k' v'] d IH]; simpl; [reflexivity|].
  destruct (String.eqb k' k); simpl; congruence.
Qed.

Lemma not_in_keys_del k d : ~ In k (Dict.keys (Dict.del k d)).
Proof.
  rewrite keys_del, filter_In. intros [_ H].
  rewrite String.eqb_refl in H. discriminate.
Qed.

Lemma mem_get k d : Dict.mem k d = true <-> exists v, Dict.get k d = Some v.
Proof.
  unfold Dict.mem. destruct (Dict.get k d); split; eauto; try discriminate.
  intros [? ?]; discriminate.
Qed.

Lemma get_in_keys k v d : Dict.get k d = Some v -> In k (Dict.keys d).
Proof.
  unfold Dict.keys. induction d as [|[k' v'] d IH]; simpl; [discriminate|].
  destruct (String.eqb_spec k' k); auto.
Qed.
End DictFacts.

(** ** Nodes and references *)

Lemma get_put_child key child self :
  Node.get_child key (Node.put_child key child self) =
  match Node.get_child key self with Some _ => Some child | None => None end.
Proof. unfold Node.get_child, Node.put_child; simpl. apply get_replace. Qed.

Lemma put_child_same key child self :
  Node.get_child key self = Some child -> Node.put_child key child self = self.
Proof.
  unfold Node.get_child, Node.put_child, Node.with_children. intros H.
  rewrite replace_same by exact H. destruct self; reflexivity.
Qed.

Lemma add_child_fresh child self :
  is_file self = false ->
  Node.get_child (name child) self = None ->
  Node.add_child child self =
  (Node.with_children self (children self ++ [(name child, child)]), Ok tt).
Proof.
  unfold Node.add_child, Node.get_child, Dict.mem. intros -> H. rewrite H.
  rewrite set_absent by exact H. reflexivity.
Qed.

Lemma put_child_added key child child' self :
  Node.get_child key self = None ->
  Node.put_child key child' (Node.with_children self (children self ++ [(key, child)])) =
  Node.with_children self (children self ++ [(key, child')]).
Proof.
  unfold Node.get_child, Node.put_child, Node.with_children; simpl. intros H.
  rewrite replace_snoc by exact H. reflexivity.
Qed.

Lemma get_child_added key child self :
  Node.get_child key self = None ->
  Node.get_child key (Node.with_children self (children self ++ [(key, child)])) = Some child.
Proof. unfold Node.get_child; simpl. apply get_snoc. Qed.

(** ** create *)

Section CreateFacts.
Variables (path : string) (file : bool).

Let fresh := FileSystem.new_node file.

(** One step of the loop on a missing child. *)
Lemma create_from_missing part rest current :
  is_file current = false ->
  Node.get_child part current = None ->
  FileSystem.create_from path file (part :: rest) current =
  (Node.with_children current
     (children current ++
        [(part, fst (FileSystem.create_from path file rest (fresh part rest)))]),
   snd (FileSystem.create_from path file rest (fresh part rest))).
Proof.
  intros Hdir Hnone. simpl. rewrite Hdir, Hnone.
  change (FileSystem.new_node file part rest) with (fresh part rest).
  rewrite (add_child_fresh (fresh part rest) current Hdir Hnone).
  destruct (FileSystem.create_from path file rest (fresh part rest)) as [child' r].
  simpl. rewrite put_child_added by exact Hnone. reflexivity.
Qed.

(** One step of the loop on a child that is there. *)
Lemma create_from_present part rest current child :
  is_file current = false ->
  Node.get_child part current = Some child ->
  FileSystem.create_from path file (part :: rest) current =
  (Node.put_child part (fst (FileSystem.create_from path file rest child)) current,
   snd (FileSystem.create_from path file rest child)).
Proof.
  intros Hdir Hsome. simpl. rewrite Hdir, Hsome.
  destruct (FileSystem.create_from path file rest child); reflexivity.
Qed.

(** Below a node that was just made nothing exists, so nothing fails. *)
Lemma create_from_fresh rest : forall part,
  snd (FileSystem.create_from path file rest (fresh part rest)) = Ok tt.
Proof.
  induction rest as [|part' rest IH]; intros part.
  - simpl. rewrite Bool.eqb_reflx. reflexivity.
  - rewrite create_from_missing by reflexivity. simpl. apply IH.
Qed.

(** A failing [create] has changed nothing. *)
Lemma create_from_raise parts : forall current current' e,
  FileSystem.create_from path file parts current = (current', Raise e) ->
  current' = current /\
  (e = PathConflict path \/ exists n, e = CannotCreateInsideFile n).
Proof.
  induction parts as [|part rest IH]; intros current current' e.
  - simpl. destruct (Bool.eqb _ _); intros [= <- <-]; auto.
  - destruct (is_file current) eqn:Hdir.
    { simpl. rewrite Hdir. intros [= <- <-]. eauto. }
    destruct (Node.get_child part current) as [child|] eqn:Hget.
    + rewrite (create_from_present _ _ _ _ Hdir Hget).
      destruct (FileSystem.create_from path file rest child) as [child' r] eqn:E.
      simpl. intros [= <- ->].
      destruct (IH _ _ _ E) as [-> He]. split; [|exact He].
      apply put_child_same, Hget.
    + rewrite (create_from_missing _ _ _ Hdir Hget), create_from_fresh.
      discriminate.
Qed.

(** What [create] walked resolves afterwards, to a node of the requested
    type; every node on the way is a directory. *)
Lemma create_from_resolves parts : forall current current',
  FileSystem.create_from path file parts current = (current', Ok tt) ->
  (exists node, FileSystem.traverse_from (Some current') parts = Some node /\
                is_file node = file) /\
  (forall before after, parts = before ++ after -> after <> [] ->
     exists dir, FileSystem.traverse_from (Some current') before = Some dir /\
                 is_file dir = false).
Proof.
  induction parts as [|part rest IH]; intros current current'.
  - simpl. destruct (Bool.eqb (is_file current) file) eqn:E; [|discriminate].
    intros [= <-]. apply Bool.eqb_prop in E. split; [eauto|].
    intros before after Happ Hne. symmetry in Happ.
    apply app_eq_nil in Happ as [_ ->]. contradiction.
  - destruct (is_file current) eqn:Hdir.
    { simpl. rewrite Hdir. discriminate. }
    assert (Hstep : forall child child' keep,
               FileSystem.create_from path file rest child = (child', Ok tt) ->
               is_file keep = false ->
               Node.get_child part keep = Some child' ->
               (exists node, FileSystem.traverse_from (Some keep) (part :: rest) = Some node /\
                             is_file node = file) /\
               (forall before after, part :: rest = before ++ after -> after <> [] ->
                  exists dir, FileSystem.traverse_from (Some keep) before = Some dir /\
                              is_file dir = false)).
    { intros child child' keep E Hk Hg. destruct (IH _ _ E) as [Hend Hmid].
      split.
      - simpl. rewrite Hk, Hg. exact Hend.
      - intros [|b before] after Happ Hne.
        + simpl. eauto.
        + simpl in Happ. injection Happ as <- Happ.
          simpl. rewrite Hk, Hg. eapply Hmid; eauto. }
    destruct (Node.get_child part current) as [child|] eqn:Hget.
    + rewrite (create_from_present _ _ _ _ Hdir Hget).
      destruct (FileSystem.create_from path file rest child) as [child' r] eqn:E.
      simpl. intros [= <- ->]. eapply Hstep; eauto.
      rewrite get_put_child, Hget. reflexivity.
    + rewrite (create_from_missing _ _ _ Hdir Hget).
      destruct (FileSystem.create_from path file rest (fresh part rest)) as [child' r] eqn:E.
      simpl. intros [= <- ->]. eapply Hstep; eauto.
      apply get_child_added, Hget.
Qed.
End CreateFacts.

(** [create] on a path that resolves only checks the type found there. *)
Lemma create_from_existing path file parts : forall current node,
  FileSystem.traverse_from (Some current) parts = Some node ->
  FileSystem.create_from path file parts current =
  (current, if Bool.eqb (is_file node) file then Ok tt else Raise (PathConflict path)).
Proof.
  induction parts as [|part rest IH]; intros current node.
  - simpl. intros [= ->]. destruct (Bool.eqb _ _); reflexivity.
  - simpl. destruct (is_file current) eqn:Hdir; [discriminate|].
    destruct (Node.get_child part current) as [child|] eqn:Hget.
    + intros H. rewrite (IH _ _ H). rewrite put_child_same by exact Hget. reflexivity.
    + destruct rest; discriminate.
Qed.

(** C4: when [create(path, is_file=X)] succeeds, traversing [path]
    afterwards resolves to a node whose [is_file] is [X], and every proper
    prefix of the path, the intermediate segments included, resolves to a
    directory. *)
Theorem create_then_traverse (path : string) (X : bool) (root root' : FileSystemNode) :
  FileSystem.create path X root = (root', Ok tt) ->
  (exists node, FileSystem._traverse (parts_of path) root' = Some node /\
                is_file node = X) /\
  (forall before after, parts_of path = before ++ after -> after <> [] ->
     exists dir, FileSystem._traverse before root' = Some dir /\
                 is_file dir = false).
Proof. apply create_from_resolves. Qed.

Lemma create_then_traverse_witness :
  (exists node,
      FileSystem._traverse (parts_of "dir/subdir/file1.txt")
        (fst (FileSystem.create "dir/subdir/file1.txt" true FileSystem.init)) = Some node /\
      is_file node = true) /\
  (exists dir,
      FileSystem._traverse ["dir"; "subdir"]
        (fst (FileSystem.create "dir/subdir/file1.txt" true FileSystem.init)) = Some dir /\
      is_file dir = false).
Proof.
  destruct (create_then_traverse "dir/subdir/file1.txt" true FileSystem.init
              (fst (FileSystem.create "dir/subdir/file1.txt" true FileSystem.init))
              eq_refl) as [Hend Hmid].
  split; [exact Hend|].
  apply (Hmid ["dir"; "subdir"] ["file1.txt"]); [reflexivity|discriminate].
Defined.

(** C5: [create] of a directory path is idempotent: a second call leaves
    the tree exactly as the first call left it, and succeeds whenever the
    first call did. *)
Theorem create_directory_idempotent (path : string) (root : FileSystemNode) :
  let once := FileSystem.create path false root in
  let twice := FileSystem.create path false (fst once) in
  fst twice = fst once /\ (snd once = Ok tt -> snd twice = Ok tt).
Proof.
  simpl. unfold FileSystem.create.
  destruct (FileSystem.create_from path false (parts_of path) root) as [root' r] eqn:E.
  destruct r as [[]|e]; simpl.
  - destruct (create_from_resolves _ _ _ _ _ E) as [(node & Hnode & Hdir) _].
    rewrite (create_from_existing _ _ _ _ _ Hnode), Hdir. simpl. auto.
  - destruct (create_from_raise _ _ _ _ _ _ E) as [-> _].
    rewrite E. simpl. split; [reflexivity|discriminate].
Qed.

Lemma create_directory_idempotent_witness :
  snd (FileSystem.create "a/b" false (fst (FileSystem.create "a/b" false FileSystem.init)))
  = Ok tt.
Proof.
  apply (create_directory_idempotent "a/b" FileSystem.init). reflexivity.
Defined.

(** C6: where a file exists, in particular where one was created,
    [create(path, is_file=true)] succeeds and changes nothing, and
    [create(path, is_file=false)] raises the path conflict error, of kind
    TypeConflict; where a directory exists, asking for a file raises it
    too.  In each case the tree is left as it was. *)
Theorem create_again_type_conflict (path : string) (root : FileSystemNode) :
  (forall node, FileSystem._traverse (parts_of path) root = Some node ->
     is_file node = true ->
     FileSystem.create path true root = (root, Ok tt) /\
     FileSystem.create path false root = (root, Raise (PathConflict path))) /\
  (forall before, FileSystem.create path true before = (root, Ok tt) ->
     FileSystem.create path true root = (root, Ok tt) /\
     FileSystem.create path false root = (root, Raise (PathConflict path))) /\
  (forall node, FileSystem._traverse (parts_of path) root = Some node ->
     is_file node = false ->
     FileSystem.create path true root = (root, Raise (PathConflict path))) /\
  (forall before, FileSystem.create path false before = (root, Ok tt) ->
     FileSystem.create path true root = (root, Raise (PathConflict path))) /\
  kind_of (PathConflict path) = TypeConflict.
Proof.
  assert (Hfile : forall node, FileSystem._traverse (parts_of path) root = Some node ->
            is_file node = true ->
            FileSystem.create path true root = (root, Ok tt) /\
            FileSystem.create path false root = (root, Raise (PathConflict path))).
  { intros node Hnode Hfile. unfold FileSystem.create.
    rewrite !(create_from_existing _ _ _ _ _ Hnode), Hfile. auto. }
  assert (Hdir : forall node, FileSystem._traverse (parts_of path) root = Some node ->
            is_file node = false ->
            FileSystem.create path true root = (root, Raise (PathConflict path))).
  { intros node Hnode Hdir. unfold FileSystem.create.
    rewrite (create_from_existing _ _ _ _ _ Hnode), Hdir. reflexivity. }
  split; [exact Hfile|]. split; [|split; [exact Hdir|split; [|reflexivity]]].
  - intros before Hbefore.
    destruct (create_from_resolves _ _ _ _ _ Hbefore) as [(node & Hnode & Hf) _]. eauto.
  - intros before Hbefore.
    destruct (create_from_resolves _ _ _ _ _ Hbefore) as [(node & Hnode & Hf) _]. eauto.
Qed.

Lemma create_again_type_conflict_witness :
  let root := fst (FileSystem.create "dir/file3.txt" true FileSystem.init) in
  let dirs := fst (FileSystem.create "dir/sub" false FileSystem.init) in
  (FileSystem.create "dir/file3.txt" true root = (root, Ok tt) /\
   FileSystem.create "dir/file3.txt" false root = (root, Raise (PathConflict "dir/file3.txt"))) /\
  FileSystem.create "dir/sub" true dirs = (dirs, Raise (PathConflict "dir/sub")).
Proof.
  simpl. split.
  - apply (proj1 (proj2 (create_again_type_conflict "dir/file3.txt"
             (fst (FileSystem.create "dir/file3.txt" true FileSystem.init)))))
      with (before := FileSystem.init).
    reflexivity.
  - apply (proj1 (proj2 (proj2 (proj2 (create_again_type_conflict "dir/sub"
             (fst (FileSystem.create "dir/sub" false FileSystem.init)))))))
      with (before := FileSystem.init).
    reflexivity.
Defined.

(** C7, as the program has it: [create] is atomic on failure.  When it
    raises, which it does only for a conflict of type at the last segment
    or for a file met on the way, it has created no node and the tree is
    the one before the call. *)
Theorem create_failure_leaves_tree (path : string) (X : bool)
    (root root' : FileSystemNode) (e : error) :
  FileSystem.create path X root = (root', Raise e) ->
  root' = root /\ (kind_of e = TypeConflict \/ kind_of e = InvalidOperation).
Proof.
  intros H. destruct (create_from_raise _ _ _ _ _ _ H) as [-> [->|[n ->]]]; auto.
Qed.

Lemma create_failure_leaves_tree_witness :
  fst (FileSystem.create "dir/subdir/file1.txt/deep/er" false FileSystem.scenario)
  = FileSystem.scenario.
Proof.
  apply (create_failure_leaves_tree "dir/subdir/file1.txt/deep/er" false
           FileSystem.scenario _ (CannotCreateInsideFile "file1.txt")).
  reflexivity.
Defined.

(** C7, as stated, fails: no call of [create] that raises leaves the tree
    different from what it was. *)
Lemma create_never_partial :
  ~ exists path X root root' e,
      FileSystem.create path X root = (root', Raise e) /\ root' <> root.
Proof.
  intros (path & X & root & root' & e & H & Hne).
  apply Hne. apply (create_from_raise _ _ _ _ _ _ H).
Qed.

(** ** Traversal and references *)

Lemma traverse_from_None path : FileSystem.traverse_from None path = None.
Proof. destruct path; reflexivity. Qed.

Lemma traverse_from_app before after : forall current,
  FileSystem.traverse_from current (before ++ after) =
  FileSystem.traverse_from (FileSystem.traverse_from current before) after.
Proof.
  induction before as [|part rest IH]; intros current; simpl; [reflexivity|].
  destruct current as [node|]; [|symmetry; apply traverse_from_None].
  destruct (is_file node); [symmetry; apply traverse_from_None|apply IH].
Qed.

(** The last step of a traversal. *)
Lemma traverse_snoc before last root :
  FileSystem._traverse (before ++ [last]) root =
  match FileSystem._traverse before root with
  | Some parent => if is_file parent then None else Node.get_child last parent
  | None => None
  end.
Proof.
  unfold FileSystem._traverse. rewrite traverse_from_app. simpl.
  destruct (FileSystem.traverse_from (Some root) before); reflexivity.
Qed.

Lemma traverse_store path node' : forall root node,
  FileSystem._traverse path root = Some node ->
  FileSystem._traverse path (Node.store path node' root) = Some node'.
Proof.
  unfold FileSystem._traverse.
  induction path as [|part rest IH]; intros root node; simpl; [reflexivity|].
  destruct (is_file root) eqn:Hdir; [discriminate|].
  destruct (Node.get_child part root) as [child|] eqn:Hget.
  - intros H. simpl. rewrite Hdir, get_put_child, Hget. eapply IH, H.
  - rewrite traverse_from_None. discriminate.
Qed.

Lemma store_same path : forall root node,
  FileSystem._traverse path root = Some node -> Node.store path node root = root.
Proof.
  unfold FileSystem._traverse.
  induction path as [|part rest IH]; intros root node; simpl; [congruence|].
  destruct (is_file root); [discriminate|].
  destruct (Node.get_child part root) as [child|] eqn:Hget.
  - intros H. rewrite (IH _ _ H). apply put_child_same, Hget.
  - reflexivity.
Qed.

Lemma split_not_nil s : PyStr.split s <> [].
Proof.
  destruct s as [|c s]; simpl; [discriminate|].
  destruct (PyStr.is_slash c); [discriminate|].
  destruct (PyStr.split s); discriminate.
Qed.

Lemma parts_init_last path :
  parts_of path = init_parts (parts_of path) ++ [last_part (parts_of path)].
Proof. apply app_removelast_last, split_not_nil. Qed.

(** ** delete *)

Lemma remove_child_present key child self :
  Node.get_child key self = Some child ->
  Node.remove_child key self =
  (Node.with_children self (Dict.del key (children self)), Ok tt).
Proof.
  unfold Node.get_child, Node.remove_child, Dict.mem. intros H. rewrite H.
  destruct (children self); [discriminate|reflexivity].
Qed.

Lemma remove_child_absent key self :
  Node.get_child key self = None ->
  Node.remove_child key self = (self, Raise (ChildNotFound key)).
Proof.
  unfold Node.get_child, Node.remove_child, Dict.mem. intros H. rewrite H.
  destruct (children self); reflexivity.
Qed.

(** X17: when the segments of [path] resolve, [delete(path)] succeeds and
    takes the last segment out of the [children] of the node the other
    segments lead to, the other names keeping their order; nothing
    resolves at or below [path] any more; and a second [delete(path)]
    raises the child-not-found error, of kind NotFound, leaving the tree
    alone.  For a path string that has the segments of the parent, which
    exists only when the parent is not the root, [list_directory] then
    returns names without the deleted one.  When the parent segments do not
    resolve, [delete] raises the path-not-found error, of kind NotFound,
    and changes nothing. *)
Theorem delete_then_absent (path : string) (root : FileSystemNode) :
  let parts := parts_of path in
  (forall node, FileSystem._traverse parts root = Some node ->
     exists parent parent' root',
       FileSystem._traverse (init_parts parts) root = Some parent /\
       FileSystem.delete path root = (root', Ok tt) /\
       FileSystem._traverse (init_parts parts) root' = Some parent' /\
       Dict.keys (children parent') =
         List.filter (fun k => negb (String.eqb k (last_part parts)))
           (Dict.keys (children parent)) /\
       ~ In (last_part parts) (Dict.keys (children parent')) /\
       (forall parent_path, parts_of parent_path = init_parts parts ->
          exists names, FileSystem.list_directory parent_path root' = (root', Ok names) /\
                        ~ In (last_part parts) names) /\
       (forall below, FileSystem._traverse (parts ++ below) root' = None) /\
       FileSystem.delete path root' = (root', Raise (ChildNotFound (last_part parts))) /\
       kind_of (ChildNotFound (last_part parts)) = NotFound) /\
  (FileSystem._traverse (init_parts parts) root = None ->
     FileSystem.delete path root = (root, Raise PathNotFound) /\
     kind_of PathNotFound = NotFound).
Proof.
  intros parts. split.
  - intros node Hnode. unfold parts in Hnode.
    rewrite parts_init_last, traverse_snoc in Hnode. fold parts in Hnode.
    destruct (FileSystem._traverse (init_parts parts) root) as [parent|] eqn:Hparent;
      [|discriminate].
    destruct (is_file parent) eqn:Hdir; [discriminate|].
    set (parent' := Node.with_children parent
                      (Dict.del (last_part parts) (children parent))).
    set (root' := Node.store (init_parts parts) parent' root).
    assert (Hparent' : FileSystem._traverse (init_parts parts) root' = Some parent')
      by (eapply traverse_store, Hparent).
    assert (Hgone : Node.get_child (last_part parts) parent' = None)
      by apply get_del.
    exists parent, parent', root'. split; [reflexivity|].
    split.
    { unfold FileSystem.delete. fold parts. rewrite Hparent.
      rewrite (remove_child_present _ _ _ Hnode). reflexivity. }
    split; [exact Hparent'|].
    split; [apply keys_del|].
    split; [apply not_in_keys_del|].
    split.
    { intros parent_path Hpp. exists (Dict.keys (children parent')).
      unfold FileSystem.list_directory. rewrite Hpp, Hparent'. simpl. rewrite Hdir.
      split; [reflexivity|apply not_in_keys_del]. }
    split.
    { intros below. unfold parts at 1. rewrite parts_init_last. fold parts.
      unfold FileSystem._traverse. rewrite traverse_from_app.
      fold (FileSystem._traverse (init_parts parts ++ [last_part parts]) root').
      rewrite traverse_snoc, Hparent'. simpl. rewrite Hdir, Hgone.
      apply traverse_from_None. }
    split; [|reflexivity].
    unfold FileSystem.delete. fold parts. rewrite Hparent'.
    rewrite (remove_child_absent _ _ Hgone).
    rewrite (store_same _ _ _ Hparent'). reflexivity.
  - intros Hnone. unfold FileSystem.delete. fold parts. rewrite Hnone. auto.
Qed.

Lemma delete_then_absent_witness :
  (exists names,
      FileSystem.list_directory "dir"
        (fst (FileSystem.delete "dir/file3.txt" FileSystem.scenario))
      = (fst (FileSystem.delete "dir/file3.txt" FileSystem.scenario), Ok names) /\
      ~ In "file3.txt" names) /\
  FileSystem.delete "nowhere/at/all" FileSystem.scenario
  = (FileSystem.scenario, Raise PathNotFound).
Proof.
  destruct (delete_then_absent "dir/file3.txt" FileSystem.scenario) as [Hdel _].
  destruct (delete_then_absent "nowhere/at/all" FileSystem.scenario) as [_ Hno].
  split.
  - destruct (Hdel _ eq_refl)
      as (parent & parent' & root' & _ & Hok & _ & _ & _ & Hlist & _).
    rewrite Hok. simpl. apply Hlist. reflexivity.
  - apply Hno. reflexivity.
Defined.

(** ** Strings *)

Section StringFacts.
Implicit Types (p s k : string) (c : ascii).

Lemma app_cons c s k : String c s +:+ k = String c (s +:+ k).
Proof. reflexivity. Qed.

Lemma app_assoc p s k : (p +:+ s) +:+ k = p +:+ (s +:+ k).
Proof.
  induction p as [|c p IH]; [reflexivity|]. rewrite !app_cons, IH. reflexivity.
Qed.

Lemma app_empty p s : p +:+ s = "" -> s = "".
Proof. destruct p; [auto|discriminate]. Qed.

Lemma lstrip_no_lead p : no_lead p = true -> PyStr.lstrip p = p.
Proof.
  destruct p as [|c p]; simpl; [reflexivity|].
  destruct (PyStr.is_slash c); [discriminate|reflexivity].
Qed.

Lemma slash_free_trimmed k : PyStr.slash_free k = true -> trimmed k.
Proof.
  intros H. split.
  - destruct k as [|c k]; simpl in *; [reflexivity|].
    destruct (PyStr.is_slash c); [discriminate|reflexivity].
  - induction k as [|c k IH]; simpl in *; [reflexivity|].
    apply andb_prop in H as [Hc Hk]. rewrite (IH Hk).
    destruct k; [|reflexivity].
    destruct (PyStr.is_slash c); [discriminate|reflexivity].
Qed.

Lemma rstrip_app p s : s <> "" -> PyStr.rstrip s = s -> PyStr.rstrip (p +:+ s) = p +:+ s.
Proof.
  intros Hne Hs. induction p as [|c p IH]; [exact Hs|].
  rewrite app_cons. simpl. rewrite IH.
  destruct (p +:+ s) eqn:E; [|reflexivity].
  apply app_empty in E. contradiction.
Qed.

Lemma rstrip_app_slash p : PyStr.rstrip (p +:+ "/") = PyStr.rstrip p.
Proof.
  induction p as [|c p IH]; [reflexivity|].
  rewrite app_cons. simpl. rewrite IH. reflexivity.
Qed.

Lemma strip_extend p k :
  trimmed p -> PyStr.slash_free k = true ->
  PyStr.strip (p +:+ "/" +:+ k) = extend p k /\ trimmed (extend p k).
Proof.
  intros [Hlead Htrail] Hk. pose proof (slash_free_trimmed k Hk) as [Hklead Hktrail].
  unfold PyStr.strip.
  destruct k as [|c k].
  - destruct p as [|c' p]; [split; [reflexivity|split; reflexivity]|].
    simpl extend. split; [|split; assumption].
    rewrite lstrip_no_lead by exact Hlead.
    rewrite rstrip_app_slash. exact Htrail.
  - assert (Hslashk : PyStr.rstrip ("/" +:+ String c k) = "/" +:+ String c k).
    { change ("/" +:+ String c k) with (String "/" (String c k)).
      simpl. simpl in Hktrail. rewrite Hktrail. reflexivity. }
    destruct p as [|c' p].
    + simpl extend. split; [|split; assumption].
      change ("" +:+ "/" +:+ String c k) with (String "/" (String c k)).
      change (PyStr.lstrip (String "/" (String c k))) with (PyStr.lstrip (String c k)).
      rewrite lstrip_no_lead by exact Hklead. exact Hktrail.
    + simpl extend.
      assert (Hr : PyStr.rstrip (String c' p +:+ "/" +:+ String c k)
                   = String c' p +:+ "/" +:+ String c k)
        by (apply rstrip_app; [discriminate|exact Hslashk]).
      split; [|split; [exact Hlead|exact Hr]].
      rewrite lstrip_no_lead by exact Hlead. exact Hr.
Qed.

Lemma concat_snoc (sep : string) (l : list string) k :
  l <> [] -> String.concat sep (l ++ [k]) = String.concat sep l +:+ sep +:+ k.
Proof.
  induction l as [|x l IH]; [contradiction|]. intros _.
  destruct l as [|y l]; [reflexivity|].
  change (String.concat sep ((x :: y :: l) ++ [k]))
    with (x +:+ sep +:+ String.concat sep ((y :: l) ++ [k])).
  rewrite IH by discriminate.
  change (String.concat sep (x :: y :: l))
    with (x +:+ sep +:+ String.concat sep (y :: l)).
  rewrite !app_assoc. reflexivity.
Qed.

Lemma concat_nonempty (sep : string) (l : list string) :
  l <> [] -> Forall (fun x => PyStr.nonempty x = true) l ->
  String.concat sep l <> "".
Proof.
  destruct l as [|x l]; [contradiction|]. intros _ H.
  apply Forall_cons in H as [Hx _].
  destruct x as [|c x]; [discriminate|].
  destruct l; simpl; discriminate.
Qed.

Lemma joined_snoc (keys : list string) k :
  joined (keys ++ [k]) = extend (joined keys) k.
Proof.
  unfold joined, PyStr.join. rewrite List.filter_app. simpl.
  destruct k as [|c k]; simpl.
  - rewrite app_nil_r. destruct (String.concat _ _); reflexivity.
  - destruct (List.filter PyStr.nonempty keys) as [|x l] eqn:E; [reflexivity|].
    rewrite concat_snoc by discriminate.
    destruct (String.concat "/" (x :: l)) eqn:Ec; [|reflexivity].
    exfalso. revert Ec. apply concat_nonempty; [discriminate|].
    rewrite <- E. apply List.Forall_forall. intros y Hy.
    apply List.filter_In in Hy. apply Hy.
Qed.

Lemma trimmed_joined (keys : list string) :
  Forall (fun k => PyStr.slash_free k = true) keys -> trimmed (joined keys).
Proof.
  induction keys as [|k keys IH] using rev_ind; intros H.
  - split; reflexivity.
  - apply Forall_app in H as [Hkeys Hk]. apply Forall_cons in Hk as [Hk _].
    rewrite joined_snoc. apply strip_extend; auto.
Qed.

(** The path [search] passes down for the child under [k]. *)
Lemma strip_joined (keys : list string) k :
  Forall (fun k => PyStr.slash_free k = true) keys ->
  PyStr.slash_free k = true ->
  PyStr.strip (joined keys +:+ "/" +:+ k) = joined (keys ++ [k]).
Proof.
  intros Hkeys Hk. rewrite joined_snoc.
  apply strip_extend; [apply trimmed_joined, Hkeys|exact Hk].
Qed.
End StringFacts.

(** ** search *)

Lemma search_from_unfold name0 node path :
  FileSystem.search_from name0 node path =
  (if String.eqb (name node) name0
   then [match path with EmptyString => "/" | _ => path end]
   else [])
  ++
  (if is_file node then []
   else flat_map
          (fun entry =>
             FileSystem.search_from name0 (snd entry)
               (PyStr.strip (path +:+ "/" +:+ fst entry)))
          (children node)).
Proof. destruct node; reflexivity. Qed.

Lemma walk_unfold node keys :
  walk node keys =
  (keys, node) ::
  (if is_file node then []
   else flat_map (fun entry => walk (snd entry) (keys ++ [fst entry])) (children node)).
Proof. destruct node; reflexivity. Qed.

Lemma everywhere_unfold P node :
  everywhere P node =
  P node && forallb (fun entry => everywhere P (snd entry)) (children node).
Proof. destruct node; reflexivity. Qed.

Lemma matches_app name0 l1 l2 :
  matches name0 (l1 ++ l2) = matches name0 l1 ++ matches name0 l2.
Proof. unfold matches. rewrite List.filter_app, List.map_app. reflexivity. Qed.

Lemma search_from_walk name0 node : forall keys,
  slash_free_keys node = true ->
  Forall (fun k => PyStr.slash_free k = true) keys ->
  FileSystem.search_from name0 node (joined keys) = matches name0 (walk node keys).
Proof.
  induction node as [n f d p IH] using FileSystemNode_ind. intros keys Hnode Hkeys.
  rewrite search_from_unfold, walk_unfold.
  change ((keys, mkNode n f d p) :: ?l) with ([(keys, mkNode n f d p)] ++ l).
  rewrite matches_app. f_equal.
  - unfold matches, shown. simpl. destruct (String.eqb n name0); reflexivity.
  - simpl. destruct f; [reflexivity|].
    unfold slash_free_keys in Hnode. rewrite everywhere_unfold in Hnode.
    apply andb_prop in Hnode as [Hks Hbelow].
    unfold keys_slash_free, Dict.keys in Hks. simpl in Hks, Hbelow.
    induction IH as [|[k child] d IHchild _ IHd]; [reflexivity|].
    simpl in Hks, Hbelow.
    apply andb_prop in Hks as [Hk Hks]. apply andb_prop in Hbelow as [Hchild Hbelow].
    simpl. rewrite matches_app. f_equal; [|apply IHd; assumption].
    rewrite strip_joined by assumption.
    apply IHchild; [exact Hchild|].
    apply Forall_app. split; [exact Hkeys|]. apply Forall_cons. split; [exact Hk|constructor].
Qed.

(** ** Properties of every node of the tree *)

Section ForallbDict.
Context {V : Type} (g : V -> bool).
Implicit Types (d : list (string * V)).

Lemma forallb_get k v d :
  forallb (fun entry => g (snd entry)) d = true -> Dict.get k d = Some v -> g v = true.
Proof.
  induction d as [|[k' v'] d IH]; simpl; [discriminate|].
  intros H. apply andb_prop in H as [Hv Hd].
  destruct (String.eqb k' k); [congruence|auto].
Qed.

Lemma forallb_replace k v d :
  forallb (fun entry => g (snd entry)) d = true -> g v = true ->
  forallb (fun entry => g (snd entry)) (Dict.replace k v d) = true.
Proof.
  intros H Hv. induction d as [|[k' v'] d IH]; simpl; [reflexivity|].
  simpl in H. apply andb_prop in H as [Hv' Hd].
  destruct (String.eqb k' k); simpl.
  - rewrite Hv, Hd. reflexivity.
  - rewrite Hv', IH by exact Hd. reflexivity.
Qed.

Lemma forallb_del k d :
  forallb (fun entry => g (snd entry)) d = true ->
  forallb (fun entry => g (snd entry)) (Dict.del k d) = true.
Proof.
  induction d as [|[k' v'] d IH]; simpl; [reflexivity|].
  intros H. apply andb_prop in H as [Hv' Hd].
  destruct (String.eqb k' k); simpl; [auto|].
  rewrite Hv', IH by exact Hd. reflexivity.
Qed.
End ForallbDict.

Section Preservation.
Variable P : FileSystemNode -> bool.
Variable key_ok : string -> Prop.

(** [P] looks at the flag and the keys of a node only; it survives a
    deletion, the addition of a good key to a directory, and holds of a
    node just made. *)
Hypothesis P_ext : forall n n',
  is_file n = is_file n' -> Dict.keys (children n) = Dict.keys (children n') ->
  P n = P n'.
Hypothesis P_del : forall k n,
  P n = true -> P (Node.with_children n (Dict.del k (children n))) = true.
Hypothesis P_add : forall k c n,
  P n = true -> is_file n = false -> key_ok k ->
  P (Node.with_children n (children n ++ [(k, c)])) = true.
Hypothesis P_new : forall part file, P (mkNode part file [] ∅) = true.

Let good := everywhere P.

Lemma everywhere_intro node :
  P node = true ->
  forallb (fun entry => good (snd entry)) (children node) = true ->
  good node = true.
Proof. intros H1 H2. unfold good. rewrite everywhere_unfold. apply andb_true_intro; auto. Qed.

Lemma everywhere_elim node :
  good node = true ->
  P node = true /\ forallb (fun entry => good (snd entry)) (children node) = true.
Proof. unfold good. rewrite everywhere_unfold. apply andb_prop. Qed.

Lemma everywhere_child key child node :
  good node = true -> Node.get_child key node = Some child -> good child = true.
Proof.
  intros H Hget. apply everywhere_elim in H as [_ H].
  eapply forallb_get; eauto.
Qed.

Lemma everywhere_put_child key child node :
  good node = true -> good child = true -> good (Node.put_child key child node) = true.
Proof.
  intros H Hchild. apply everywhere_elim in H as [HP H].
  apply everywhere_intro.
  - rewrite <- HP. apply P_ext; [reflexivity|]. simpl. apply keys_replace.
  - simpl. apply forallb_replace; assumption.
Qed.

Lemma everywhere_added key child node :
  good node = true -> is_file node = false -> key_ok key -> good child = true ->
  good (Node.with_children node (children node ++ [(key, child)])) = true.
Proof.
  intros H Hdir Hkey Hchild. apply everywhere_elim in H as [HP H].
  apply everywhere_intro; [apply P_add; assumption|].
  simpl. rewrite forallb_app, H. simpl. rewrite Hchild. reflexivity.
Qed.

Lemma everywhere_with_permissions node perms :
  good node = true -> good (Node.with_permissions node perms) = true.
Proof.
  intros H. apply everywhere_elim in H as [HP H].
  apply everywhere_intro; [|exact H].
  rewrite <- HP. apply P_ext; reflexivity.
Qed.

Lemma everywhere_add_child child node :
  good node = true -> good child = true -> key_ok (name child) ->
  good (fst (Node.add_child child node)) = true.
Proof.
  intros H Hchild Hkey. unfold Node.add_child.
  destruct (is_file node) eqn:Hdir; [exact H|].
  destruct (Dict.mem (name child) (children node)) eqn:Hmem; [exact H|].
  simpl. unfold Dict.set. rewrite Hmem. apply everywhere_added; assumption.
Qed.

Lemma everywhere_remove_child key node :
  good node = true -> good (fst (Node.remove_child key node)) = true.
Proof.
  intros H. unfold Node.remove_child.
  destruct (children node) as [|entry d] eqn:Hd; [exact H|]. rewrite <- Hd.
  destruct (negb _); [exact H|]. simpl.
  apply everywhere_elim in H as [HP H].
  apply everywhere_intro; [apply P_del, HP|].
  simpl. apply forallb_del, H.
Qed.

Lemma everywhere_traverse path : forall root node,
  good root = true -> FileSystem._traverse path root = Some node -> good node = true.
Proof.
  unfold FileSystem._traverse.
  induction path as [|part rest IH]; intros root node H; simpl; [congruence|].
  destruct (is_file root); [discriminate|].
  destruct (Node.get_child part root) as [child|] eqn:Hget.
  - apply IH. eapply everywhere_child; eauto.
  - rewrite traverse_from_None. discriminate.
Qed.

Lemma everywhere_store path node' : forall root,
  good root = true -> good node' = true -> good (Node.store path node' root) = true.
Proof.
  induction path as [|part rest IH]; intros root H H'; simpl; [exact H'|].
  destruct (Node.get_child part root) as [child|] eqn:Hget; [|exact H].
  apply everywhere_put_child; [exact H|].
  apply IH; [|exact H']. exact (everywhere_child _ _ _ H Hget).
Qed.

Lemma everywhere_new file part rest : good (FileSystem.new_node file part rest) = true.
Proof. apply everywhere_intro; [apply P_new|reflexivity]. Qed.

Lemma everywhere_create_from path file parts : forall current,
  Forall key_ok parts -> good current = true ->
  good (fst (FileSystem.create_from path file parts current)) = true.
Proof.
  induction parts as [|part rest IH]; intros current Hparts H.
  - simpl. destruct (Bool.eqb _ _); exact H.
  - apply Forall_cons in Hparts as [Hpart Hrest].
    destruct (is_file current) eqn:Hdir; [simpl; rewrite Hdir; exact H|].
    destruct (Node.get_child part current) as [child|] eqn:Hget.
    + rewrite (create_from_present _ _ _ _ _ _ Hdir Hget). simpl.
      apply everywhere_put_child; [exact H|].
      apply IH; [exact Hrest|]. eapply everywhere_child; eauto.
    + rewrite (create_from_missing _ _ _ _ _ Hdir Hget). simpl.
      apply everywhere_added; try assumption.
      apply IH; [exact Hrest|apply everywhere_new].
Qed.

(** Every operation of the interface keeps [P] everywhere, given that
    the segments of a path are good keys. *)
Lemma everywhere_state_after op root :
  (forall path, Forall key_ok (parts_of path)) ->
  good root = true -> good (state_after op root) = true.
Proof.
  intros Hparts H. destruct op as [path file|path|path|name0|path user perm|path user]; simpl.
  - apply everywhere_create_from; auto.
  - unfold FileSystem.delete.
    destruct (FileSystem._traverse _ root) as [parent|] eqn:Hparent; [|exact H].
    pose proof (everywhere_remove_child (last_part (parts_of path)) parent
                  (everywhere_traverse _ _ _ H Hparent)) as Hrem.
    destruct (Node.remove_child _ parent) as [parent' r]. simpl in *.
    apply everywhere_store; assumption.
  - unfold FileSystem.list_directory.
    destruct (FileSystem._traverse _ root) as [node|]; [|exact H].
    destruct (is_file node); exact H.
  - exact H.
  - unfold FileSystem.set_permissions.
    destruct (FileSystem._traverse _ root) as [node|] eqn:Hnode; [|exact H].
    simpl. apply everywhere_store; [exact H|].
    apply everywhere_with_permissions. eapply everywhere_traverse; eauto.
  - unfold FileSystem.get_permissions.
    destruct (FileSystem._traverse _ root) as [node|]; exact H.
Qed.
End Preservation.

(** *** Files are leaves *)

Lemma parts_any_key path : Forall (fun _ : string => True) (parts_of path).
Proof. apply List.Forall_forall. auto. Qed.

Lemma leaf_if_file_ext n n' :
  is_file n = is_file n' -> Dict.keys (children n) = Dict.keys (children n') ->
  leaf_if_file n = leaf_if_file n'.
Proof.
  unfold leaf_if_file, Dict.keys. intros -> H.
  destruct (children n), (children n'); try discriminate; reflexivity.
Qed.

Lemma leaf_if_file_del k n :
  leaf_if_file n = true ->
  leaf_if_file (Node.with_children n (Dict.del k (children n))) = true.
Proof.
  unfold leaf_if_file. simpl. destruct (is_file n); [|reflexivity].
  destruct (children n); [reflexivity|discriminate].
Qed.

Lemma leaf_if_file_add (k : string) (c n : FileSystemNode) :
  leaf_if_file n = true -> is_file n = false -> True ->
  leaf_if_file (Node.with_children n (children n ++ [(k, c)])) = true.
Proof. unfold leaf_if_file. simpl. intros _ -> _. reflexivity. Qed.

Lemma leaf_if_file_new part file : leaf_if_file (mkNode part file [] ∅) = true.
Proof. unfold leaf_if_file. simpl. destruct file; reflexivity. Qed.

Lemma files_are_leaves_state_after op root :
  files_are_leaves root = true -> files_are_leaves (state_after op root) = true.
Proof.
  apply (everywhere_state_after leaf_if_file (fun _ => True)
           leaf_if_file_ext leaf_if_file_del leaf_if_file_add leaf_if_file_new).
  apply parts_any_key.
Qed.

(** *** Keys have no slash *)

Lemma split_slash_free s :
  Forall (fun k => PyStr.slash_free k = true) (PyStr.split s).
Proof.
  induction s as [|c s IH]; simpl.
  - repeat constructor.
  - destruct (PyStr.is_slash c) eqn:Hc.
    + constructor; [reflexivity|exact IH].
    + destruct (PyStr.split s) as [|h t]; [repeat constructor; simpl; rewrite Hc; reflexivity|].
      apply Forall_cons in IH as [Hh Ht].
      constructor; [|exact Ht]. simpl. rewrite Hc, Hh. reflexivity.
Qed.

Lemma keys_slash_free_ext n n' :
  is_file n = is_file n' -> Dict.keys (children n) = Dict.keys (children n') ->
  keys_slash_free n = keys_slash_free n'.
Proof. unfold keys_slash_free. intros _ ->. reflexivity. Qed.

Lemma keys_slash_free_del k n :
  keys_slash_free n = true ->
  keys_slash_free (Node.with_children n (Dict.del k (children n))) = true.
Proof.
  unfold keys_slash_free. simpl. rewrite keys_del.
  induction (Dict.keys (children n)) as [|k' l IH]; simpl; [reflexivity|].
  intros H. apply andb_prop in H as [Hk Hl].
  destruct (negb _); simpl; [rewrite Hk|]; auto.
Qed.

Lemma keys_slash_free_add (k : string) (c n : FileSystemNode) :
  keys_slash_free n = true -> is_file n = false -> PyStr.slash_free k = true ->
  keys_slash_free (Node.with_children n (children n ++ [(k, c)])) = true.
Proof.
  unfold keys_slash_free, Dict.keys. simpl. intros H _ Hk.
  rewrite List.map_app, forallb_app, H. simpl. rewrite Hk. reflexivity.
Qed.

Lemma keys_slash_free_new part file : keys_slash_free (mkNode part file [] ∅) = true.
Proof. reflexivity. Qed.

(** Trees made through the interface have keys without slashes: the empty
    tree has, and every operation keeps it so. *)
Lemma slash_free_keys_state_after op root :
  slash_free_keys root = true -> slash_free_keys (state_after op root) = true.
Proof.
  apply (everywhere_state_after keys_slash_free (fun k => PyStr.slash_free k = true)
           keys_slash_free_ext keys_slash_free_del keys_slash_free_add keys_slash_free_new).
  intros path. apply split_slash_free.
Qed.

(** C9: every operation of the interface, and [add_child] and
    [remove_child] on a node, keep the invariant that every file of the
    tree has an empty [children] dict; under it a file reached by a
    traversal has no children; and [add_child] on a file raises the
    cannot-add-child error, of kind InvalidOperation, and leaves the file
    as it was. *)
Theorem files_stay_leaves :
  files_are_leaves FileSystem.init = true /\
  (forall op root,
      files_are_leaves root = true -> files_are_leaves (state_after op root) = true) /\
  (forall child self,
      files_are_leaves self = true -> files_are_leaves child = true ->
      files_are_leaves (fst (Node.add_child child self)) = true) /\
  (forall key self,
      files_are_leaves self = true ->
      files_are_leaves (fst (Node.remove_child key self)) = true) /\
  (forall root path node,
      files_are_leaves root = true ->
      FileSystem._traverse path root = Some node ->
      is_file node = true -> children node = []) /\
  (forall child self,
      is_file self = true ->
      Node.add_child child self = (self, Raise (CannotAddChildToFile (name self))) /\
      kind_of (CannotAddChildToFile (name self)) = InvalidOperation).
Proof.
  split; [reflexivity|].
  split; [exact files_are_leaves_state_after|].
  split.
  { intros child self Hself Hchild.
    apply (everywhere_add_child leaf_if_file (fun _ => True) leaf_if_file_add); auto. }
  split.
  { intros key self Hself.
    apply (everywhere_remove_child leaf_if_file leaf_if_file_del); auto. }
  split.
  { intros root path node Hroot Hnode Hfile.
    pose proof (everywhere_traverse leaf_if_file path root node Hroot Hnode) as H.
    apply everywhere_elim in H as [H _]. unfold leaf_if_file in H.
    rewrite Hfile in H. destruct (children node); [reflexivity|discriminate]. }
  intros child self Hfile. unfold Node.add_child. rewrite Hfile. auto.
Qed.

Lemma files_stay_leaves_witness :
  files_are_leaves
    (state_after (OpCreate "dir/subdir/file1.txt/on/top" false) FileSystem.scenario) = true /\
  Node.add_child (mkNode "x" false [] ∅) (mkNode "file1.txt" true [] ∅)
  = (mkNode "file1.txt" true [] ∅, Raise (CannotAddChildToFile "file1.txt")).
Proof.
  destruct files_stay_leaves as (_ & Hop & _ & _ & _ & Hadd).
  split.
  - apply Hop. reflexivity.
  - apply (Hadd (mkNode "x" false [] ∅) (mkNode "file1.txt" true [] ∅)). reflexivity.
Defined.

(** ** set_permissions *)

Lemma skeleton_unfold node :
  skeleton node =
  mkNode (name node) (is_file node)
    (map (fun entry => (fst entry, skeleton (snd entry))) (children node)) ∅.
Proof. destruct node; reflexivity. Qed.

Lemma skeleton_put_child key child child' node :
  Node.get_child key node = Some child ->
  skeleton child' = skeleton child ->
  skeleton (Node.put_child key child' node) = skeleton node.
Proof.
  unfold Node.get_child. intros Hget Hsame.
  rewrite (skeleton_unfold node), (skeleton_unfold (Node.put_child _ _ _)). simpl.
  f_equal. induction (children node) as [|[k v] d IH]; simpl in *; [reflexivity|].
  destruct (String.eqb k key); simpl.
  - injection Hget as ->. rewrite Hsame. reflexivity.
  - rewrite IH by exact Hget. reflexivity.
Qed.

Lemma skeleton_store path node' : forall root node,
  FileSystem._traverse path root = Some node ->
  skeleton node' = skeleton node ->
  skeleton (Node.store path node' root) = skeleton root.
Proof.
  unfold FileSystem._traverse.
  induction path as [|part rest IH]; intros root node; simpl; [congruence|].
  destruct (is_file root); [discriminate|].
  destruct (Node.get_child part root) as [child|] eqn:Hget; [|reflexivity].
  intros H Hsame. eapply skeleton_put_child; eauto.
Qed.

Lemma traverse_cons part rest root :
  FileSystem._traverse (part :: rest) root =
  if is_file root then None
  else FileSystem.traverse_from (Node.get_child part root) rest.
Proof. reflexivity. Qed.

(** Storing such a node where [path] leads keeps every traversal: it
    arrives at a node of the same name, flag and keys, with the same
    permissions unless it is the traversal of [path]. *)
Lemma traverse_store_frame path node' : forall root node,
  FileSystem._traverse path root = Some node ->
  same_but_permissions node' node ->
  forall other found,
    FileSystem._traverse other root = Some found ->
    exists found',
      FileSystem._traverse other (Node.store path node' root) = Some found' /\
      name found' = name found /\ is_file found' = is_file found /\
      Dict.keys (children found') = Dict.keys (children found) /\
      (other <> path -> permissions found' = permissions found) /\
      (other = path -> found' = node' /\ found = node).
Proof.
  induction path as [|part rest IH]; intros root node Hnode (Hname & Hflag & Hchildren).
  - injection Hnode as <-. intros [|o os] found Hfound.
    + injection Hfound as <-. exists node'. simpl.
      rewrite Hname, Hflag, Hchildren. repeat split; auto; intros; congruence.
    + exists found. split; [|repeat split; auto; intros; congruence].
      simpl Node.store. rewrite traverse_cons in *.
      unfold Node.get_child in *. rewrite Hflag, Hchildren. exact Hfound.
  - rewrite traverse_cons in Hnode.
    destruct (is_file root) eqn:Hdir; [discriminate|].
    destruct (Node.get_child part root) as [child|] eqn:Hget;
      [|rewrite traverse_from_None in Hnode; discriminate].
    simpl Node.store. rewrite Hget.
    intros [|o os] found Hfound.
    + injection Hfound as <-. eexists. split; [reflexivity|].
      simpl. rewrite keys_replace. repeat split; auto; intros; congruence.
    + rewrite traverse_cons in *. rewrite Hdir in Hfound. simpl is_file. rewrite Hdir.
      destruct (String.eqb_spec part o) as [<-|Hne].
      * rewrite Hget in Hfound. rewrite get_put_child, Hget.
        destruct (IH child node Hnode (conj Hname (conj Hflag Hchildren)) os found Hfound)
          as (found' & Hfound' & Hn & Hf & Hk & Hother & Hsame).
        exists found'. split; [exact Hfound'|].
        repeat split; auto.
        -- intros Hdiff. apply Hother. congruence.
        -- apply Hsame. congruence.
        -- apply Hsame. congruence.
      * exists found. unfold Node.get_child, Node.put_child in *. simpl.
        rewrite get_replace_ne by exact Hne.
        repeat split; auto; intros; congruence.
Qed.

(** C10: when [set_permissions(path, user, perm)] succeeds, [path]
    resolved to a node, which now carries [perm] for [user]; the tree
    without its permissions (the name, the flag and the [children] dict of
    every node) is what it was; and every traversal that resolved still
    resolves, to a node of the same name, flag and child names, with the
    same permissions when it is not the traversal of [path], and with the
    same entry for every other user in any case. *)
Theorem set_permissions_frame (path user perm : string) (root root' : FileSystemNode) :
  FileSystem.set_permissions path user perm root = (root', Ok tt) ->
  exists node,
    FileSystem._traverse (parts_of path) root = Some node /\
    FileSystem._traverse (parts_of path) root' =
      Some (mkNode (name node) (is_file node) (children node)
              (<[user := perm]> (permissions node))) /\
    skeleton root' = skeleton root /\
    forall other found,
      FileSystem._traverse other root = Some found ->
      exists found',
        FileSystem._traverse other root' = Some found' /\
        name found' = name found /\ is_file found' = is_file found /\
        Dict.keys (children found') = Dict.keys (children found) /\
        (other <> parts_of path -> permissions found' = permissions found) /\
        (forall u, u <> user -> permissions found' !! u = permissions found !! u).
Proof.
  unfold FileSystem.set_permissions.
  destruct (FileSystem._traverse (parts_of path) root) as [node|] eqn:Hnode;
    [|discriminate].
  simpl. intros [= <-]. exists node. split; [reflexivity|].
  set (node' := Node.with_permissions node (<[user:=perm]> (permissions node))).
  split; [eapply traverse_store, Hnode|].
  split; [eapply skeleton_store; [exact Hnode|destruct node; reflexivity]|].
  intros other found Hfound.
  destruct (traverse_store_frame _ node' _ _ Hnode
              (conj eq_refl (conj eq_refl eq_refl)) _ _ Hfound)
    as (found' & Hfound' & Hn & Hf & Hk & Hother & Hsame).
  exists found'. repeat split; auto.
  intros u Hu. destruct (decide (other = parts_of path)) as [Heq|Hne].
  - destruct (Hsame Heq) as [-> ->]. simpl. apply lookup_insert_ne. congruence.
  - rewrite (Hother Hne). reflexivity.
Qed.

Lemma set_permissions_frame_witness :
  exists found',
    FileSystem._traverse ["dir"; "file3.txt"]
      (fst (FileSystem.set_permissions "dir/subdir/file1.txt" "user1" "rwx"
              FileSystem.scenario)) = Some found' /\
    permissions found' = ∅.
Proof.
  destruct (set_permissions_frame "dir/subdir/file1.txt" "user1" "rwx"
              FileSystem.scenario _ eq_refl)
    as (node & _ & _ & _ & Hframe).
  destruct (Hframe ["dir"; "file3.txt"] _ eq_refl)
    as (found' & Hfound' & _ & _ & _ & Hother & _).
  exists found'. split; [exact Hfound'|].
  rewrite Hother; [reflexivity|discriminate].
Defined.

(** ** What search returns *)

Lemma get_In {V : Type} k (v : V) d : Dict.get k d = Some v -> In (k, v) d.
Proof.
  induction d as [|[k' v'] d IH]; simpl; [discriminate|].
  destruct (String.eqb_spec k' k) as [->|_]; [intros [= ->]; auto|auto].
Qed.

(** A node that a traversal reaches is walked, under the keys of the
    traversal. *)
Lemma traverse_walk keys : forall node before found,
  FileSystem.traverse_from (Some node) keys = Some found ->
  In (before ++ keys, found) (walk node before).
Proof.
  induction keys as [|k keys IH]; intros node before found; rewrite walk_unfold.
  - simpl. intros [= ->]. rewrite app_nil_r. left. reflexivity.
  - simpl. destruct (is_file node); [discriminate|].
    destruct (Node.get_child k node) as [child|] eqn:Hget;
      [|rewrite traverse_from_None; discriminate].
    intros H. right. apply in_flat_map. exists (k, child).
    split; [apply get_In, Hget|]. simpl.
    replace (before ++ k :: keys) with ((before ++ [k]) ++ keys)
      by (rewrite <- List.app_assoc; reflexivity).
    apply IH, H.
Qed.

Lemma filter_nonempty_all (parts : list string) :
  Forall (fun part => PyStr.nonempty part = true) parts ->
  List.filter PyStr.nonempty parts = parts.
Proof.
  induction parts as [|x parts IH]; [reflexivity|]. intros H.
  apply Forall_cons in H as [Hx Hparts]. simpl. rewrite Hx, IH by exact Hparts.
  reflexivity.
Qed.

Lemma everywhere_impl (P Q : FileSystemNode -> bool) node :
  (forall n, P n = true -> Q n = true) ->
  everywhere P node = true -> everywhere Q node = true.
Proof.
  intros HPQ. induction node as [n f d p IH] using FileSystemNode_ind.
  rewrite !everywhere_unfold. intros H. apply andb_prop in H as [HP Hd].
  apply andb_true_intro. split; [apply HPQ, HP|]. clear HP. simpl in *.
  induction IH as [|entry d IHentry _ IHd]; [reflexivity|].
  simpl in *. apply andb_prop in Hd as [He Hd].
  rewrite (IHentry He), (IHd Hd). reflexivity.
Qed.

Lemma proper_keys_slash_free root :
  proper_keys root = true -> slash_free_keys root = true.
Proof.
  apply everywhere_impl. intros n. unfold keys_proper, keys_slash_free.
  rewrite !forallb_forall. intros H key Hkey.
  apply H in Hkey. apply andb_prop in Hkey. apply Hkey.
Qed.

(** In a tree with proper keys the keys of every walked node are
    non-empty. *)
Lemma walk_keys_nonempty node : forall before keys found,
  proper_keys node = true ->
  Forall (fun key => PyStr.nonempty key = true) before ->
  In (keys, found) (walk node before) ->
  Forall (fun key => PyStr.nonempty key = true) keys.
Proof.
  induction node as [n f d p IH] using FileSystemNode_ind.
  intros before keys found Hnode Hbefore. rewrite walk_unfold. cbn [is_file children].
  intros [[= <- _]|Hin]; [exact Hbefore|].
  destruct f; [contradiction|].
  unfold proper_keys in Hnode. rewrite everywhere_unfold in Hnode.
  apply andb_prop in Hnode as [Hks Hbelow].
  unfold keys_proper, Dict.keys in Hks. cbn [children] in Hks, Hbelow.
  induction IH as [|[k child] d IHchild _ IHd]; [contradiction|].
  simpl in Hks, Hbelow, Hin.
  apply andb_prop in Hks as [Hk Hks]. apply andb_prop in Hbelow as [Hchild Hbelow].
  apply andb_prop in Hk as [Hk _].
  apply in_app_or in Hin as [Hin|Hin]; [|apply IHd; assumption].
  apply (IHchild (before ++ [k]) keys found Hchild); [|exact Hin].
  apply Forall_app. split; [exact Hbefore|]. apply Forall_cons. split; [exact Hk|constructor].
Qed.

Lemma shown_path_of (keys : list string) :
  Forall (fun key => PyStr.nonempty key = true) keys -> shown keys = path_of keys.
Proof.
  intros H. unfold shown, joined. rewrite filter_nonempty_all by exact H.
  destruct keys as [|key keys]; [reflexivity|].
  unfold path_of. destruct (PyStr.join (key :: keys)) eqn:E; [|reflexivity].
  exfalso. revert E. apply concat_nonempty; [discriminate|exact H].
Qed.

Lemma matches_found_paths name0 root :
  proper_keys root = true ->
  matches name0 (walk root []) = found_paths name0 (walk root []).
Proof.
  intros Hroot. unfold matches, found_paths. apply map_ext_in.
  intros [keys found] Hin. apply List.filter_In in Hin as [Hin _]. simpl.
  apply shown_path_of.
  apply (walk_keys_nonempty root [] keys found Hroot); [constructor|exact Hin].
Qed.

(** Proper keys are kept by [create] on a path without empty segments. *)
Lemma keys_proper_ext n n' :
  is_file n = is_file n' -> Dict.keys (children n) = Dict.keys (children n') ->
  keys_proper n = keys_proper n'.
Proof. unfold keys_proper. intros _ ->. reflexivity. Qed.

Lemma keys_proper_del k n :
  keys_proper n = true ->
  keys_proper (Node.with_children n (Dict.del k (children n))) = true.
Proof.
  unfold keys_proper. simpl. rewrite keys_del.
  induction (Dict.keys (children n)) as [|k' l IH]; simpl; [reflexivity|].
  intros H. apply andb_prop in H as [Hk Hl].
  destruct (negb (String.eqb k' k)); simpl; [rewrite Hk|]; auto.
Qed.

Lemma keys_proper_add (k : string) (c n : FileSystemNode) :
  keys_proper n = true -> is_file n = false ->
  PyStr.nonempty k && PyStr.slash_free k = true ->
  keys_proper (Node.with_children n (children n ++ [(k, c)])) = true.
Proof.
  unfold keys_proper, Dict.keys. simpl. intros H _ Hk.
  rewrite List.map_app, forallb_app, H. simpl. rewrite Hk. reflexivity.
Qed.

Lemma keys_proper_new part file : keys_proper (mkNode part file [] ∅) = true.
Proof. reflexivity. Qed.

Lemma proper_keys_create path file root :
  Forall (fun part => PyStr.nonempty part = true) (parts_of path) ->
  proper_keys root = true ->
  proper_keys (fst (FileSystem.create path file root)) = true.
Proof.
  intros Hparts.
  apply (everywhere_create_from keys_proper
           (fun k => PyStr.nonempty k && PyStr.slash_free k = true)
           keys_proper_ext keys_proper_add keys_proper_new).
  pose proof (split_slash_free (PyStr.strip path)) as Hfree.
  fold (parts_of path) in Hfree.
  rewrite List.Forall_forall in *. intros part Hpart.
  rewrite (Hparts part Hpart), (Hfree part Hpart). reflexivity.
Qed.

(** C1, as the program has it: in every tree whose keys are non-empty and
    without '/', as [create] makes them from paths without empty segments,
    [search(name)] returns, in depth-first order, one path for every node
    under the root whose name is [name]: "/" for the root itself and, for
    any other node, the keys that lead to it joined by '/', with no slash in
    front.  In particular the path of every node of that name that a
    traversal resolves is returned.  In the scenario, [search("file1.txt")]
    returns ["dir/subdir/file1.txt"]. *)
Theorem search_returns_paths :
  (forall name0 root,
      proper_keys root = true ->
      FileSystem.search name0 root = (root, Ok (found_paths name0 (walk root []))) /\
      (forall keys node,
          FileSystem._traverse keys root = Some node -> name node = name0 ->
          In (path_of keys) (found_paths name0 (walk root [])))) /\
  FileSystem.search "file1.txt" FileSystem.scenario
  = (FileSystem.scenario, Ok ["dir/subdir/file1.txt"]).
Proof.
  split; [|reflexivity].
  intros name0 root Hroot. split.
  - unfold FileSystem.search. do 2 f_equal.
    rewrite <- (matches_found_paths name0 root Hroot).
    apply (search_from_walk name0 root [] (proper_keys_slash_free root Hroot)).
    constructor.
  - intros keys node Hnode Hname. unfold found_paths.
    apply (in_map (fun entry => path_of (fst entry)) _ (keys, node)).
    apply List.filter_In. split.
    + apply (traverse_walk keys root [] node Hnode).
    + simpl. rewrite Hname. apply String.eqb_refl.
Qed.

Lemma search_returns_paths_witness :
  FileSystem.search "file3.txt" FileSystem.scenario
  = (FileSystem.scenario, Ok (found_paths "file3.txt" (walk FileSystem.scenario []))) /\
  In "dir/file3.txt" (found_paths "file3.txt" (walk FileSystem.scenario [])).
Proof.
  destruct search_returns_paths as [Hsearch _].
  destruct (Hsearch "file3.txt" FileSystem.scenario eq_refl) as [Hall Hin].
  split; [exact Hall|].
  apply (Hin ["dir"; "file3.txt"] (mkNode "file3.txt" true [] ∅)); reflexivity.
Defined.

(** C1, as stated, fails: in the scenario [search("file1.txt")] does not
    return ["/dir/subdir/file1.txt"]; the path it returns has no slash in
    front. *)
Lemma search_scenario_no_leading_slash :
  snd (FileSystem.search "file1.txt" FileSystem.scenario)
  <> Ok ["/dir/subdir/file1.txt"].
Proof. discriminate. Qed.

(** ** The root path *)

(** C2 at its failing input: [""] and ["/"] both split into the one
    segment [""], which [_traverse] looks up among the children of the
    root; on the new tree and on the scenario tree, which have no such
    child, [list_directory] of either path raises the not-a-directory
    error instead of listing the root. *)
Theorem list_directory_root_raises :
  parts_of "" = [""] /\ parts_of "/" = [""] /\
  FileSystem.list_directory "/" FileSystem.init = (FileSystem.init, Raise NotADirectory) /\
  FileSystem.list_directory "" FileSystem.init = (FileSystem.init, Raise NotADirectory) /\
  FileSystem.list_directory "/" FileSystem.scenario
  = (FileSystem.scenario, Raise NotADirectory) /\
  FileSystem.list_directory "" FileSystem.scenario
  = (FileSystem.scenario, Raise NotADirectory).
Proof. repeat split; reflexivity. Qed.

(** C3 at its failing input: on the new tree, [create("/")] and
    [create("")] succeed and put a directory named [""] into the
    [children] of the root. *)
Theorem create_root_adds_empty_name :
  FileSystem.create "/" false FileSystem.init
  = (mkNode "/" false [("", mkNode "" false [] ∅)] ∅, Ok tt) /\
  FileSystem.create "" false FileSystem.init
  = (mkNode "/" false [("", mkNode "" false [] ∅)] ∅, Ok tt) /\
  children (fst (FileSystem.create "/" false FileSystem.init)) <> children FileSystem.init.
Proof. split; [reflexivity|split; [reflexivity|discriminate]]. Qed.

(** C8 at its failing input: in the scenario tree "dir" resolves and its
    parent is the root.  [delete("dir")] succeeds and takes "dir" out of
    the [children] of the root, but listing the parent afterwards, by "/"
    or by "", raises the not-a-directory error instead of returning the
    names without "dir": both paths split into the one segment [""]. *)
Theorem delete_top_level_listing_raises :
  let after := fst (FileSystem.delete "dir" FileSystem.scenario) in
  (exists node, FileSystem._traverse (parts_of "dir") FileSystem.scenario = Some node) /\
  init_parts (parts_of "dir") = [] /\
  FileSystem.delete "dir" FileSystem.scenario = (after, Ok tt) /\
  Node.get_child "dir" after = None /\
  FileSystem.list_directory "/" after = (after, Raise NotADirectory) /\
  FileSystem.list_directory "" after = (after, Raise NotADirectory).
Proof.
  simpl. split; [eexists; reflexivity|].
  split; [reflexivity|]. split; [reflexivity|]. split; [reflexivity|].
  split; reflexivity.
Qed.

(** * Further properties of the program *)

(** ** Paths and traversal *)

Lemma strip_app_slash p : PyStr.strip (p +:+ "/") = PyStr.strip p.
Proof.
  unfold PyStr.strip. induction p as [|c p IH]; [reflexivity|].
  rewrite app_cons. simpl. destruct (PyStr.is_slash c); [exact IH|].
  change (String c (p +:+ "/")) with (String c p +:+ "/").
  apply rstrip_app_slash.
Qed.

(** X1: the parsing of a path ignores a slash in front and a slash at the
    end, never gives an empty list of segments, and gives segments that
    contain no '/'. *)
Theorem parts_of_slashes (path : string) :
  parts_of ("/" +:+ path) = parts_of path /\
  parts_of (path +:+ "/") = parts_of path /\
  parts_of path <> [] /\
  Forall (fun part => PyStr.slash_free part = true) (parts_of path).
Proof.
  unfold parts_of. split; [reflexivity|].
  split; [rewrite strip_app_slash; reflexivity|].
  split; [apply split_not_nil|apply split_slash_free].
Qed.

(** X2: [_traverse] never goes through a file: when a path resolves,
    every proper prefix of it resolves to a directory, from which the rest
    of the path leads to the same node. *)
Theorem traverse_prefix (before after : list string) (root node : FileSystemNode) :
  FileSystem._traverse (before ++ after) root = Some node ->
  after <> [] ->
  exists dir,
    FileSystem._traverse before root = Some dir /\ is_file dir = false /\
    FileSystem._traverse after dir = Some node.
Proof.
  unfold FileSystem._traverse. rewrite traverse_from_app. intros H Hafter.
  destruct (FileSystem.traverse_from (Some root) before) as [dir|];
    [|rewrite traverse_from_None in H; discriminate].
  exists dir. split; [reflexivity|]. split; [|exact H].
  destruct after as [|part rest]; [contradiction|].
  simpl in H. destruct (is_file dir); [discriminate|reflexivity].
Qed.

Lemma traverse_prefix_witness :
  exists dir,
    FileSystem._traverse ["dir"; "subdir"] FileSystem.scenario = Some dir /\
    is_file dir = false /\
    FileSystem._traverse ["file1.txt"] dir = Some (mkNode "file1.txt" true [] ∅).
Proof.
  apply (traverse_prefix ["dir"; "subdir"] ["file1.txt"] FileSystem.scenario);
    [reflexivity|discriminate].
Defined.

(** ** add_child and remove_child *)

Lemma get_del_ne {V : Type} k k' (d : list (string * V)) :
  k <> k' -> Dict.get k' (Dict.del k d) = Dict.get k' d.
Proof.
  intros Hne. induction d as [|[k0 v0] d IH]; simpl; [reflexivity|].
  destruct (String.eqb_spec k0 k) as [->|Hk]; simpl.
  - destruct (String.eqb_spec k k'); [contradiction|exact IH].
  - rewrite IH. reflexivity.
Qed.

Lemma del_absent {V : Type} k (d : list (string * V)) :
  Dict.get k d = None -> Dict.del k d = d.
Proof.
  induction d as [|[k0 v0] d IH]; simpl; [reflexivity|].
  destruct (String.eqb k0 k); [discriminate|]. intros H. rewrite IH; auto.
Qed.

Lemma del_snoc {V : Type} k (v : V) (d : list (string * V)) :
  Dict.get k d = None -> Dict.del k (d ++ [(k, v)]) = d.
Proof.
  induction d as [|[k0 v0] d IH]; simpl.
  - rewrite String.eqb_refl. reflexivity.
  - destruct (String.eqb k0 k); [discriminate|]. intros H. rewrite IH; auto.
Qed.

Lemma get_app_l {V : Type} k (v : V) (d d' : list (string * V)) :
  Dict.get k d = Some v -> Dict.get k (d ++ d') = Some v.
Proof.
  induction d as [|[k0 v0] d IH]; simpl; [discriminate|].
  destruct (String.eqb k0 k); auto.
Qed.

Lemma get_snoc_ne {V : Type} k k' (v : V) (d : list (string * V)) :
  k <> k' -> Dict.get k' (d ++ [(k, v)]) = Dict.get k' d.
Proof.
  intros Hne. induction d as [|[k0 v0] d IH]; simpl.
  - destruct (String.eqb_spec k k'); [contradiction|reflexivity].
  - rewrite IH. reflexivity.
Qed.

Lemma with_children_same self : Node.with_children self (children self) = self.
Proof. destruct self; reflexivity. Qed.

(** X3: on a directory that has no child of that name, [add_child(child)]
    succeeds; afterwards [get_child] of the name returns [child], the name
    is the last of the child names, adding the child again raises the
    already-exists error and changes nothing, and [remove_child] of the
    name gives back the directory as it was. *)
Theorem add_child_round_trip (child self : FileSystemNode) :
  is_file self = false ->
  Node.get_child (name child) self = None ->
  exists self',
    Node.add_child child self = (self', Ok tt) /\
    Node.get_child (name child) self' = Some child /\
    Dict.keys (children self') = Dict.keys (children self) ++ [name child] /\
    Node.add_child child self' = (self', Raise (ChildAlreadyExists (name child))) /\
    Node.remove_child (name child) self' = (self, Ok tt).
Proof.
  intros Hdir Hnone. eexists. split; [apply add_child_fresh; assumption|].
  assert (Hget : Node.get_child (name child)
                   (Node.with_children self (children self ++ [(name child, child)]))
                 = Some child) by (apply get_child_added, Hnone).
  split; [exact Hget|].
  split; [unfold Dict.keys; simpl; apply List.map_app|].
  split.
  - unfold Node.add_child. simpl. rewrite Hdir.
    unfold Node.get_child in Hget. simpl in Hget.
    unfold Dict.mem. rewrite Hget. reflexivity.
  - rewrite (remove_child_present _ _ _ Hget). simpl.
    unfold Node.get_child in Hnone. rewrite del_snoc by exact Hnone.
    unfold Node.with_children. simpl. destruct self; reflexivity.
Qed.

Lemma add_child_round_trip_witness :
  exists self',
    Node.add_child (mkNode "a" true [] ∅) FileSystem.init = (self', Ok tt) /\
    Node.remove_child "a" self' = (FileSystem.init, Ok tt).
Proof.
  destruct (add_child_round_trip (mkNode "a" true [] ∅) FileSystem.init eq_refl eq_refl)
    as (self' & Hadd & _ & _ & _ & Hrem).
  exists self'. split; assumption.
Defined.

(** What [remove_child] does, in both of its outcomes. *)
Lemma remove_child_facts (key : string) (self : FileSystemNode) :
  let self' := fst (Node.remove_child key self) in
  (snd (Node.remove_child key self) =
   match Node.get_child key self with
   | Some _ => Ok tt
   | None => Raise (ChildNotFound key)
   end) /\
  (Node.get_child key self = None -> self' = self) /\
  Node.get_child key self' = None /\
  (forall other, other <> key -> Node.get_child other self' = Node.get_child other self) /\
  Dict.keys (children self') =
    List.filter (fun k => negb (String.eqb k key)) (Dict.keys (children self)) /\
  name self' = name self /\ is_file self' = is_file self /\
  permissions self' = permissions self.
Proof.
  simpl. destruct (Node.get_child key self) as [child|] eqn:Hget.
  - rewrite (remove_child_present _ _ _ Hget). simpl.
    split; [reflexivity|]. split; [discriminate|].
    split; [apply get_del|].
    split; [intros other Hne; apply get_del_ne; congruence|].
    split; [apply keys_del|auto].
  - rewrite (remove_child_absent _ _ Hget). simpl.
    split; [reflexivity|]. split; [reflexivity|].
    split; [exact Hget|]. split; [reflexivity|].
    split; [|auto].
    unfold Node.get_child in Hget. rewrite <- keys_del, del_absent by exact Hget.
    reflexivity.
Qed.

(** X4: [remove_child(key)] succeeds exactly when [get_child(key)] finds
    a child, and raises the child-not-found error, changing nothing,
    otherwise; either way [get_child(key)] finds nothing afterwards, and
    the children under other keys, their order included, are untouched. *)
Theorem remove_child_effect (key : string) (self : FileSystemNode) :
  let self' := fst (Node.remove_child key self) in
  (snd (Node.remove_child key self) =
   match Node.get_child key self with
   | Some _ => Ok tt
   | None => Raise (ChildNotFound key)
   end) /\
  (Node.get_child key self = None -> self' = self) /\
  Node.get_child key self' = None /\
  (forall other, other <> key -> Node.get_child other self' = Node.get_child other self) /\
  Dict.keys (children self') =
    List.filter (fun k => negb (String.eqb k key)) (Dict.keys (children self)) /\
  name self' = name self /\ is_file self' = is_file self /\
  permissions self' = permissions self.
Proof. apply remove_child_facts. Qed.

Lemma remove_child_effect_witness :
  Node.get_child "dir" (fst (Node.remove_child "dir" FileSystem.scenario)) = None /\
  fst (Node.remove_child "other" FileSystem.scenario) = FileSystem.scenario.
Proof.
  destruct (remove_child_effect "dir" FileSystem.scenario) as (_ & _ & Hgone & _).
  destruct (remove_child_effect "other" FileSystem.scenario) as (_ & Hsame & _).
  split; [exact Hgone|apply Hsame; reflexivity].
Defined.

(** ** create, continued *)

(** Walking segments that resolve changes nothing but what the rest of
    the walk changes in the node they lead to. *)
Lemma create_from_app path file before after : forall current mid,
  FileSystem.traverse_from (Some current) before = Some mid ->
  FileSystem.create_from path file (before ++ after) current =
  (Node.store before (fst (FileSystem.create_from path file after mid)) current,
   snd (FileSystem.create_from path file after mid)).
Proof.
  induction before as [|part rest IH]; intros current mid; simpl.
  - intros [= ->]. destruct (FileSystem.create_from path file after mid); reflexivity.
  - destruct (is_file current) eqn:Hdir; [discriminate|].
    destruct (Node.get_child part current) as [child|] eqn:Hget;
      [|rewrite traverse_from_None; discriminate].
    intros H. rewrite (IH _ _ H). reflexivity.
Qed.

Lemma store_store path node1 node2 : forall root,
  Node.store path node2 (Node.store path node1 root) = Node.store path node2 root.
Proof.
  induction path as [|part rest IH]; intros root; simpl; [reflexivity|].
  destruct (Node.get_child part root) as [child|] eqn:Hget.
  - rewrite get_put_child, Hget, IH.
    unfold Node.put_child, Node.with_children. simpl.
    rewrite replace_replace. reflexivity.
  - rewrite Hget. reflexivity.
Qed.

Lemma traverse_from_cons node part rest :
  FileSystem.traverse_from (Some node) (part :: rest) =
  if is_file node then None
  else FileSystem.traverse_from (Node.get_child part node) rest.
Proof. reflexivity. Qed.

Lemma is_file_put_child key child node :
  is_file (Node.put_child key child node) = is_file node.
Proof. reflexivity. Qed.

(** Below a node just made, the walk makes one node per segment and the
    last of them is blank. *)
Lemma create_from_fresh_blank path file rest : forall part,
  FileSystem.traverse_from
    (Some (fst (FileSystem.create_from path file rest
                  (FileSystem.new_node file part rest)))) rest
  = Some (mkNode (List.last (part :: rest) "") file [] ∅).
Proof.
  induction rest as [|part' rest IH]; intros part.
  - simpl. rewrite Bool.eqb_reflx. reflexivity.
  - rewrite create_from_missing by reflexivity.
    cbn [fst]. rewrite traverse_from_cons. cbn [is_file Node.with_children FileSystem.new_node].
    rewrite get_child_added by reflexivity.
    rewrite IH. reflexivity.
Qed.

Lemma create_from_blank path file parts : forall current current',
  FileSystem.traverse_from (Some current) parts = None ->
  FileSystem.create_from path file parts current = (current', Ok tt) ->
  FileSystem.traverse_from (Some current') parts
  = Some (mkNode (List.last parts "") file [] ∅).
Proof.
  induction parts as [|part rest IH]; intros current current'; [discriminate|].
  destruct (is_file current) eqn:Hdir.
  { simpl. rewrite Hdir. discriminate. }
  destruct (Node.get_child part current) as [child|] eqn:Hget.
  - rewrite (create_from_present _ _ _ _ _ _ Hdir Hget).
    destruct (FileSystem.create_from path file rest child) as [child' r] eqn:E.
    rewrite traverse_from_cons, Hdir, Hget. cbn [fst snd]. intros Hnone [= <- ->].
    rewrite traverse_from_cons, is_file_put_child, Hdir, get_put_child, Hget.
    rewrite (IH _ _ Hnone E).
    destruct rest; [discriminate|reflexivity].
  - rewrite (create_from_missing _ _ _ _ _ Hdir Hget). intros _ [= <- _].
    rewrite traverse_from_cons. cbn [is_file Node.with_children]. rewrite Hdir.
    rewrite get_child_added by exact Hget.
    apply create_from_fresh_blank.
Qed.

(** X5: when [create(path, is_file=X)] succeeds on a path that did not
    resolve, the path resolves afterwards to a blank node: named by the
    last segment, of type [X], without children and without permissions.
    So [get_permissions] returns none for every user there, and
    [list_directory] returns the empty list for a directory and raises for
    a file. *)
Theorem create_makes_blank_node (path : string) (X : bool) (root root' : FileSystemNode) :
  FileSystem._traverse (parts_of path) root = None ->
  FileSystem.create path X root = (root', Ok tt) ->
  FileSystem._traverse (parts_of path) root'
  = Some (mkNode (last_part (parts_of path)) X [] ∅) /\
  (forall user, FileSystem.get_permissions path user root' = (root', Ok None)) /\
  FileSystem.list_directory path root'
  = (root', if X then Raise NotADirectory else Ok []).
Proof.
  intros Hnone Hcreate.
  pose proof (create_from_blank _ _ _ _ _ Hnone Hcreate) as Hnode.
  fold (FileSystem._traverse (parts_of path) root') in Hnode.
  fold (last_part (parts_of path)) in Hnode.
  split; [exact Hnode|]. split.
  - intros user. unfold FileSystem.get_permissions. rewrite Hnode. reflexivity.
  - unfold FileSystem.list_directory. rewrite Hnode. simpl. destruct X; reflexivity.
Qed.

Lemma create_makes_blank_node_witness :
  FileSystem._traverse (parts_of "a/b/c.txt")
    (fst (FileSystem.create "a/b/c.txt" true FileSystem.scenario))
  = Some (mkNode "c.txt" true [] ∅).
Proof.
  apply (create_makes_blank_node "a/b/c.txt" true FileSystem.scenario _ eq_refl eq_refl).
Defined.

(** X6: when all but the last segment of [path] lead to a directory
    that has no child named by the last segment, [create] succeeds and
    changes only that directory, which gets one blank child under that
    name, last among its children; [delete] of the same path then gives
    back the tree as it was before the [create].  For a path string that
    has the segments of that directory, which exists only when it is not
    the root, [list_directory] returns the former names followed by the
    new one. *)
Theorem create_new_leaf (path : string) (X : bool) (root parent : FileSystemNode) :
  let parts := parts_of path in
  FileSystem._traverse (init_parts parts) root = Some parent ->
  is_file parent = false ->
  Node.get_child (last_part parts) parent = None ->
  exists root' parent',
    FileSystem.create path X root = (root', Ok tt) /\
    root' = Node.store (init_parts parts) parent' root /\
    FileSystem._traverse (init_parts parts) root' = Some parent' /\
    children parent' =
      children parent ++ [(last_part parts, mkNode (last_part parts) X [] ∅)] /\
    name parent' = name parent /\ permissions parent' = permissions parent /\
    (forall parent_path names,
        parts_of parent_path = init_parts parts ->
        FileSystem.list_directory parent_path root = (root, Ok names) ->
        FileSystem.list_directory parent_path root'
        = (root', Ok (names ++ [last_part parts]))) /\
    FileSystem.delete path root' = (root, Ok tt).
Proof.
  intros parts Hparent Hdir Hnone.
  set (leaf := mkNode (last_part parts) X [] ∅).
  set (parent' := Node.with_children parent (children parent ++ [(last_part parts, leaf)])).
  assert (Hleaf : FileSystem.create_from path X [last_part parts] parent = (parent', Ok tt)).
  { rewrite (create_from_missing _ _ _ _ _ Hdir Hnone). simpl.
    rewrite Bool.eqb_reflx. reflexivity. }
  assert (Hparent' : FileSystem._traverse (init_parts parts)
                       (Node.store (init_parts parts) parent' root) = Some parent')
    by (eapply traverse_store, Hparent).
  exists (Node.store (init_parts parts) parent' root), parent'.
  split.
  { unfold FileSystem.create. fold parts. unfold parts at 1.
    rewrite parts_init_last. fold parts.
    rewrite (create_from_app _ _ _ _ _ _ Hparent), Hleaf. reflexivity. }
  split; [reflexivity|]. split; [exact Hparent'|].
  split; [reflexivity|]. split; [reflexivity|]. split; [reflexivity|].
  split.
  { intros parent_path names Hpp. unfold FileSystem.list_directory.
    rewrite Hpp, Hparent, Hparent'. simpl. rewrite Hdir. intros [= <-].
    unfold Dict.keys. rewrite List.map_app. reflexivity. }
  unfold FileSystem.delete. fold parts. rewrite Hparent'.
  assert (Hget : Node.get_child (last_part parts) parent' = Some leaf)
    by (apply get_child_added, Hnone).
  rewrite (remove_child_present _ _ _ Hget). simpl.
  unfold Node.get_child in Hnone. rewrite del_snoc by exact Hnone.
  rewrite store_store.
  replace (Node.with_children parent' (children parent)) with parent
    by (destruct parent; reflexivity).
  rewrite (store_same _ _ _ Hparent). reflexivity.
Qed.

Lemma create_new_leaf_witness :
  exists root',
    FileSystem.create "dir/new.txt" true FileSystem.scenario = (root', Ok tt) /\
    FileSystem.list_directory "dir" root' = (root', Ok ["subdir"; "file3.txt"; "new.txt"]) /\
    FileSystem.delete "dir/new.txt" root' = (FileSystem.scenario, Ok tt).
Proof.
  destruct (create_new_leaf "dir/new.txt" true FileSystem.scenario _ eq_refl eq_refl eq_refl)
    as (root' & parent' & Hcreate & _ & _ & _ & _ & _ & Hlist & Hdelete).
  exists root'. split; [exact Hcreate|]. split; [|exact Hdelete].
  apply (Hlist "dir" ["subdir"; "file3.txt"]); reflexivity.
Defined.

Lemma create_from_frame path file parts : forall current other found,
  FileSystem.traverse_from (Some current) other = Some found ->
  exists found' added,
    FileSystem.traverse_from
      (Some (fst (FileSystem.create_from path file parts current))) other = Some found' /\
    name found' = name found /\ is_file found' = is_file found /\
    permissions found' = permissions found /\
    Dict.keys (children found') = Dict.keys (children found) ++ added.
Proof.
  assert (Hsame : forall found : FileSystemNode, exists found' added,
             Some found = Some found' /\
             name found' = name found /\ is_file found' = is_file found /\
             permissions found' = permissions found /\
             Dict.keys (children found') = Dict.keys (children found) ++ added).
  { intros found. exists found, []. rewrite app_nil_r. auto. }
  induction parts as [|part rest IH]; intros current other found Hfound.
  - simpl. destruct (Bool.eqb _ _); simpl; rewrite Hfound; apply Hsame.
  - destruct (is_file current) eqn:Hdir.
    { simpl. rewrite Hdir. simpl. rewrite Hfound. apply Hsame. }
    destruct (Node.get_child part current) as [child|] eqn:Hget.
    + rewrite (create_from_present _ _ _ _ _ _ Hdir Hget). cbn [fst].
      destruct other as [|o os].
      * injection Hfound as <-. eexists. exists []. split; [reflexivity|].
        simpl. rewrite keys_replace, app_nil_r. auto.
      * rewrite traverse_from_cons in *. rewrite is_file_put_child.
        rewrite Hdir in *.
        destruct (String.eqb_spec part o) as [<-|Hne].
        -- rewrite get_put_child, Hget. rewrite Hget in Hfound. apply IH, Hfound.
        -- unfold Node.get_child, Node.put_child in *. simpl.
           rewrite get_replace_ne by exact Hne. rewrite Hfound. apply Hsame.
    + rewrite (create_from_missing _ _ _ _ _ Hdir Hget). cbn [fst].
      destruct other as [|o os].
      * injection Hfound as <-. eexists. exists [part]. split; [reflexivity|].
        simpl. unfold Dict.keys. rewrite List.map_app. auto.
      * rewrite traverse_from_cons in *. cbn [is_file Node.with_children].
        rewrite Hdir in *.
        destruct (Node.get_child o current) as [c|] eqn:Ho;
          [|rewrite traverse_from_None in Hfound; discriminate].
        unfold Node.get_child in *. simpl.
        rewrite (get_app_l _ _ _ _ Ho). rewrite Hfound. apply Hsame.
Qed.

(** X7: [create] takes nothing away: whether it succeeds or raises, every
    path that resolved before the call resolves after it, to a node of the
    same name, type and permissions whose child names are the former ones,
    in the same order, with new names at most added behind them. *)
Theorem create_keeps_what_resolves (path : string) (X : bool)
    (root : FileSystemNode) (other : list string) (found : FileSystemNode) :
  FileSystem._traverse other root = Some found ->
  exists found' added,
    FileSystem._traverse other (fst (FileSystem.create path X root)) = Some found' /\
    name found' = name found /\ is_file found' = is_file found /\
    permissions found' = permissions found /\
    Dict.keys (children found') = Dict.keys (children found) ++ added.
Proof. apply create_from_frame. Qed.

Lemma create_keeps_what_resolves_witness :
  exists found' added,
    FileSystem._traverse ["dir"]
      (fst (FileSystem.create "dir/subdir2" false FileSystem.scenario)) = Some found' /\
    Dict.keys (children found') = ["subdir"; "file3.txt"] ++ added.
Proof.
  destruct (create_keeps_what_resolves "dir/subdir2" false FileSystem.scenario ["dir"] _
              eq_refl)
    as (found' & added & Hfound' & _ & _ & _ & Hkeys).
  exists found', added. split; [exact Hfound'|exact Hkeys].
Defined.

Lemma create_from_raise_why path file parts : forall current current' e,
  FileSystem.create_from path file parts current = (current', Raise e) ->
  (exists before after inside,
      parts = before ++ after /\ after <> [] /\
      FileSystem.traverse_from (Some current) before = Some inside /\
      is_file inside = true /\ e = CannotCreateInsideFile (name inside)) \/
  (exists node,
      FileSystem.traverse_from (Some current) parts = Some node /\
      is_file node = negb file /\ e = PathConflict path).
Proof.
  induction parts as [|part rest IH]; intros current current' e.
  - simpl. destruct (Bool.eqb (is_file current) file) eqn:E; [discriminate|].
    intros [= _ <-]. right. exists current. split; [reflexivity|]. split; [|reflexivity].
    destruct (is_file current), file; simpl in *; congruence.
  - destruct (is_file current) eqn:Hdir.
    { simpl. rewrite Hdir. intros [= _ <-]. left.
      exists [], (part :: rest), current.
      split; [reflexivity|]. split; [discriminate|]. auto. }
    destruct (Node.get_child part current) as [child|] eqn:Hget.
    + rewrite (create_from_present _ _ _ _ _ _ Hdir Hget).
      destruct (FileSystem.create_from path file rest child) as [child' r] eqn:E.
      cbn [fst snd]. intros [= _ ->].
      destruct (IH _ _ _ E)
        as [(before & after & inside & -> & Hne & Hin & Hfile & ->)|(node & Hnode & Hflag & ->)].
      * left. exists (part :: before), after, inside.
        rewrite traverse_from_cons, Hdir, Hget. auto 6.
      * right. exists node. rewrite traverse_from_cons, Hdir, Hget. auto.
    + rewrite (create_from_missing _ _ _ _ _ Hdir Hget), create_from_fresh.
      discriminate.
Qed.

(** X8: the errors of [create], in full.  When some proper prefix of the
    path resolves to a file, [create] raises the cannot-create-inside error
    naming that file; and whenever [create] raises, either that is the
    case, or the whole path resolves to a node of the other type and the
    error is the path conflict. *)
Theorem create_errors (path : string) (X : bool) (root : FileSystemNode) :
  (forall before after inside,
      parts_of path = before ++ after -> after <> [] ->
      FileSystem._traverse before root = Some inside -> is_file inside = true ->
      FileSystem.create path X root
      = (root, Raise (CannotCreateInsideFile (name inside)))) /\
  (forall root' e,
      FileSystem.create path X root = (root', Raise e) ->
      (exists before after inside,
          parts_of path = before ++ after /\ after <> [] /\
          FileSystem._traverse before root = Some inside /\
          is_file inside = true /\ e = CannotCreateInsideFile (name inside)) \/
      (exists node,
          FileSystem._traverse (parts_of path) root = Some node /\
          is_file node = negb X /\ e = PathConflict path)).
Proof.
  split.
  - intros before after inside Hparts Hafter Hinside Hfile.
    unfold FileSystem.create. rewrite Hparts.
    rewrite (create_from_app _ _ _ _ _ _ Hinside).
    destruct after as [|part rest]; [contradiction|].
    simpl. rewrite Hfile. simpl.
    rewrite (store_same _ _ _ Hinside). reflexivity.
  - intros root' e. apply create_from_raise_why.
Qed.

Lemma create_errors_witness :
  FileSystem.create "dir/file3.txt/x/y" false FileSystem.scenario
  = (FileSystem.scenario, Raise (CannotCreateInsideFile "file3.txt")) /\
  exists node,
    FileSystem._traverse (parts_of "dir/subdir") FileSystem.scenario = Some node /\
    is_file node = false.
Proof.
  destruct (create_errors "dir/file3.txt/x/y" false FileSystem.scenario) as [Hinside _].
  destruct (create_errors "dir/subdir" true FileSystem.scenario) as [_ Hwhy].
  split.
  - apply (Hinside ["dir"; "file3.txt"] ["x"; "y"] (mkNode "file3.txt" true [] ∅));
      [reflexivity|discriminate|reflexivity|reflexivity].
  - destruct (Hwhy FileSystem.scenario (PathConflict "dir/subdir") eq_refl)
      as [(before & after & inside & _ & _ & _ & _ & He)|(node & Hnode & Hflag & _)];
      [discriminate|].
    exists node. split; [exact Hnode|exact Hflag].
Defined.

(** ** delete, continued *)

(** Storing, where [path] leads, a node that differs from the one there
    only in what it has under [key] keeps every traversal that does not go
    through [key] there. *)
Lemma store_frame_except path key parent' : forall root parent,
  FileSystem._traverse path root = Some parent ->
  name parent' = name parent -> is_file parent' = is_file parent ->
  permissions parent' = permissions parent ->
  (forall other, other <> key ->
     Node.get_child other parent' = Node.get_child other parent) ->
  forall other found,
    FileSystem._traverse other root = Some found ->
    (forall below, other <> path ++ key :: below) ->
    exists found',
      FileSystem._traverse other (Node.store path parent' root) = Some found' /\
      name found' = name found /\ is_file found' = is_file found /\
      permissions found' = permissions found /\
      (other <> path -> Dict.keys (children found') = Dict.keys (children found)) /\
      (other = path -> found' = parent' /\ found = parent).
Proof.
  unfold FileSystem._traverse.
  induction path as [|part rest IH];
    intros root parent Hparent Hname Hflag Hperm Hothers other found Hfound Hpast.
  - injection Hparent as <-. destruct other as [|o os].
    + injection Hfound as <-. exists parent'. simpl.
      split; [reflexivity|]. repeat split; auto; intros; congruence.
    + exists found. split; [|repeat split; auto; intros; congruence].
      simpl Node.store. rewrite traverse_from_cons in *. rewrite Hflag.
      destruct (is_file root); [discriminate|].
      rewrite Hothers; [exact Hfound|].
      intros ->. apply (Hpast os). reflexivity.
  - rewrite traverse_from_cons in Hparent.
    destruct (is_file root) eqn:Hdir; [discriminate|].
    destruct (Node.get_child part root) as [child|] eqn:Hget;
      [|rewrite traverse_from_None in Hparent; discriminate].
    simpl Node.store. rewrite Hget.
    destruct other as [|o os].
    + injection Hfound as <-. eexists. split; [reflexivity|].
      simpl. rewrite keys_replace. repeat split; auto; intros; congruence.
    + rewrite traverse_from_cons in *. rewrite is_file_put_child. rewrite Hdir in *.
      destruct (String.eqb_spec part o) as [<-|Hne].
      * rewrite Hget in Hfound. rewrite get_put_child, Hget.
        destruct (IH child parent Hparent Hname Hflag Hperm Hothers os found Hfound)
          as (found' & Hfound' & Hn & Hf & Hp & Hk & Hsame).
        { intros below ->. apply (Hpast below). reflexivity. }
        exists found'. split; [exact Hfound'|].
        repeat split; auto.
        -- intros Hdiff. apply Hk. congruence.
        -- apply Hsame. congruence.
        -- apply Hsame. congruence.
      * exists found. unfold Node.get_child, Node.put_child in *. simpl.
        rewrite get_replace_ne by exact Hne.
        repeat split; auto; intros; congruence.
Qed.

(** X9: [delete(path)], whether it succeeds or raises, leaves alone every
    node that is not at or below [path]: a traversal that resolved and does
    not go through [path] resolves afterwards to a node of the same name,
    type and permissions, with the same child names; only the parent of
    the deleted entry lists less, namely its former names without the last
    segment of [path]. *)
Theorem delete_keeps_others (path : string) (root : FileSystemNode)
    (other : list string) (found : FileSystemNode) :
  let parts := parts_of path in
  FileSystem._traverse other root = Some found ->
  (forall below, other <> parts ++ below) ->
  exists found',
    FileSystem._traverse other (fst (FileSystem.delete path root)) = Some found' /\
    name found' = name found /\ is_file found' = is_file found /\
    permissions found' = permissions found /\
    (other <> init_parts parts ->
       Dict.keys (children found') = Dict.keys (children found)) /\
    (other = init_parts parts ->
       Dict.keys (children found') =
       List.filter (fun k => negb (String.eqb k (last_part parts)))
         (Dict.keys (children found))).
Proof.
  intros parts Hfound Hpast. unfold FileSystem.delete. fold parts.
  destruct (FileSystem._traverse (init_parts parts) root) as [parent|] eqn:Hparent.
  - pose proof (remove_child_facts (last_part parts) parent) as Heff.
    destruct (Node.remove_child (last_part parts) parent) as [parent' r].
    simpl in Heff. destruct Heff as (_ & _ & _ & Hothers & Hkeys & Hn & Hf & Hp).
    cbn [fst].
    destruct (store_frame_except (init_parts parts) (last_part parts) parent'
                root parent Hparent Hn Hf Hp Hothers other found Hfound)
      as (found' & Hfound' & Hn' & Hf' & Hp' & Hk' & Hsame).
    { intros below Heq. apply (Hpast below). rewrite Heq.
      unfold parts at 3. rewrite parts_init_last. fold parts.
      rewrite <- List.app_assoc. reflexivity. }
    exists found'. split; [exact Hfound'|]. repeat split; auto.
    intros Heq. destruct (Hsame Heq) as [-> ->]. exact Hkeys.
  - exists found. cbn [fst]. split; [exact Hfound|]. repeat split; auto.
    intros ->. congruence.
Qed.

Lemma delete_keeps_others_witness :
  exists found',
    FileSystem._traverse ["dir"; "file3.txt"]
      (fst (FileSystem.delete "dir/subdir" FileSystem.scenario)) = Some found' /\
    name found' = "file3.txt" /\ is_file found' = true.
Proof.
  destruct (delete_keeps_others "dir/subdir" FileSystem.scenario ["dir"; "file3.txt"]
              (mkNode "file3.txt" true [] ∅) eq_refl)
    as (found' & Hfound' & Hn & Hf & _).
  - intros below. simpl. discriminate.
  - exists found'. split; [exact Hfound'|]. split; [exact Hn|exact Hf].
Defined.

(** ** Permissions *)

Lemma get_map_values {V W : Type} (f : V -> W) k (d : list (string * V)) :
  Dict.get k (map (fun entry => (fst entry, f (snd entry))) d)
  = option_map f (Dict.get k d).
Proof.
  induction d as [|[k' v] d IH]; simpl; [reflexivity|].
  destruct (String.eqb k' k); [reflexivity|exact IH].
Qed.

(** Traversing the tree without its permissions. *)
Lemma traverse_skeleton path : forall root,
  FileSystem._traverse path (skeleton root)
  = option_map skeleton (FileSystem._traverse path root).
Proof.
  unfold FileSystem._traverse.
  induction path as [|part rest IH]; intros root; [reflexivity|].
  rewrite !traverse_from_cons. rewrite (skeleton_unfold root). cbn [is_file].
  destruct (is_file root); [reflexivity|].
  unfold Node.get_child. cbn [children]. rewrite get_map_values.
  destruct (Dict.get part (children root)) as [child|]; simpl.
  - apply IH.
  - rewrite !traverse_from_None. reflexivity.
Qed.

Lemma with_permissions_twice node p1 p2 :
  Node.with_permissions (Node.with_permissions node p1) p2 = Node.with_permissions node p2.
Proof. reflexivity. Qed.

(** X10: where [path] resolves, [set_permissions(path, user, perm)]
    succeeds, and afterwards [get_permissions(path, user)] returns [perm];
    for any other user, and for any path with other segments,
    [get_permissions] returns or raises what it did before; and setting
    the permission of the same user again overwrites: the tree is the one
    a single call with the later value gives. *)
Theorem permissions_round_trip (path user perm : string) (root node : FileSystemNode) :
  FileSystem._traverse (parts_of path) root = Some node ->
  exists root',
    FileSystem.set_permissions path user perm root = (root', Ok tt) /\
    FileSystem.get_permissions path user root' = (root', Ok (Some perm)) /\
    (forall other_user, other_user <> user ->
       snd (FileSystem.get_permissions path other_user root')
       = snd (FileSystem.get_permissions path other_user root)) /\
    (forall other_path any_user, parts_of other_path <> parts_of path ->
       snd (FileSystem.get_permissions other_path any_user root')
       = snd (FileSystem.get_permissions other_path any_user root)) /\
    (forall later,
       FileSystem.set_permissions path user later root'
       = FileSystem.set_permissions path user later root).
Proof.
  intros Hnode.
  set (node' := Node.with_permissions node (<[user:=perm]> (permissions node))).
  set (root' := Node.store (parts_of path) node' root).
  assert (Hnode' : FileSystem._traverse (parts_of path) root' = Some node')
    by (eapply traverse_store, Hnode).
  assert (Hskel : skeleton root' = skeleton root)
    by (eapply skeleton_store; [exact Hnode|destruct node; reflexivity]).
  exists root'. split.
  { unfold FileSystem.set_permissions. rewrite Hnode. reflexivity. }
  split.
  { unfold FileSystem.get_permissions. rewrite Hnode'. simpl.
    unfold Node.get_permissions. simpl. rewrite lookup_insert_eq. reflexivity. }
  split.
  { intros other_user Hne. unfold FileSystem.get_permissions.
    rewrite Hnode, Hnode'. simpl. unfold Node.get_permissions. simpl.
    rewrite lookup_insert_ne by congruence. reflexivity. }
  split.
  { intros other_path any_user Hne. unfold FileSystem.get_permissions.
    destruct (FileSystem._traverse (parts_of other_path) root) as [found|] eqn:Hfound.
    - destruct (traverse_store_frame _ node' _ _ Hnode
                  (conj eq_refl (conj eq_refl eq_refl)) _ _ Hfound)
        as (found' & Hfound' & _ & _ & _ & Hother & _).
      fold root' in Hfound'. rewrite Hfound'. simpl.
      unfold Node.get_permissions. rewrite (Hother Hne). reflexivity.
    - pose proof (traverse_skeleton (parts_of other_path) root') as Hs.
      rewrite Hskel, traverse_skeleton, Hfound in Hs.
      destruct (FileSystem._traverse (parts_of other_path) root'); [discriminate|].
      reflexivity. }
  intros later. unfold FileSystem.set_permissions. rewrite Hnode, Hnode'. simpl.
  unfold root'. rewrite store_store. unfold node'.
  rewrite with_permissions_twice. simpl. rewrite insert_insert_eq. reflexivity.
Qed.

Lemma permissions_round_trip_witness :
  exists root',
    FileSystem.set_permissions "dir/subdir/file1.txt" "user1" "rwx" FileSystem.scenario
    = (root', Ok tt) /\
    FileSystem.get_permissions "dir/subdir/file1.txt" "user1" root' = (root', Ok (Some "rwx")) /\
    snd (FileSystem.get_permissions "dir/subdir/file1.txt" "user2" root') = Ok None.
Proof.
  destruct (permissions_round_trip "dir/subdir/file1.txt" "user1" "rwx"
              FileSystem.scenario _ eq_refl)
    as (root' & Hset & Hget & Huser & _).
  exists root'. split; [exact Hset|]. split; [exact Hget|].
  rewrite (Huser "user2"); [reflexivity|discriminate].
Defined.

(** ** What does not look at permissions *)

Lemma search_from_skeleton name0 node : forall path,
  FileSystem.search_from name0 (skeleton node) path
  = FileSystem.search_from name0 node path.
Proof.
  induction node as [n f d p IH] using FileSystemNode_ind. intros path.
  rewrite skeleton_unfold, !search_from_unfold. cbn [name is_file children].
  f_equal. destruct f; [reflexivity|].
  induction IH as [|[k child] d IHchild _ IHd]; [reflexivity|].
  simpl. rewrite IHchild, IHd. reflexivity.
Qed.

Lemma display_tree_unfold node indent :
  display_tree node indent =
  if is_file node then [indent +:+ "- " +:+ name node]
  else
    (indent +:+ "+ " +:+ name node) ::
    flat_map (fun entry => display_tree (snd entry) (indent +:+ "  "))
      (children node).
Proof. destruct node; reflexivity. Qed.

Lemma display_tree_skeleton node : forall indent,
  display_tree (skeleton node) indent = display_tree node indent.
Proof.
  induction node as [n f d p IH] using FileSystemNode_ind. intros indent.
  rewrite skeleton_unfold, !display_tree_unfold. cbn [name is_file children].
  destruct f; [reflexivity|]. f_equal.
  induction IH as [|[k child] d IHchild _ IHd]; [reflexivity|].
  simpl. rewrite IHchild, IHd. reflexivity.
Qed.

Lemma list_directory_skeleton path root :
  snd (FileSystem.list_directory path (skeleton root))
  = snd (FileSystem.list_directory path root).
Proof.
  unfold FileSystem.list_directory. rewrite traverse_skeleton.
  destruct (FileSystem._traverse (parts_of path) root) as [node|]; [|reflexivity].
  simpl. rewrite (skeleton_unfold node). cbn [is_file children].
  destruct (is_file node); [reflexivity|]. simpl.
  unfold Dict.keys. rewrite List.map_map. reflexivity.
Qed.

(** X11: permissions are stored and never consulted: two trees that
    differ in permissions only give the same [search] results, the same
    [list_directory] outcome for every path and the same [display_tree]
    lines.  In particular a [set_permissions] call, successful or not,
    changes none of these. *)
Theorem permissions_not_consulted :
  (forall a b, skeleton a = skeleton b ->
     (forall name0, snd (FileSystem.search name0 a) = snd (FileSystem.search name0 b)) /\
     (forall path, snd (FileSystem.list_directory path a)
                   = snd (FileSystem.list_directory path b)) /\
     (forall indent, display_tree a indent = display_tree b indent)) /\
  (forall path user perm root,
     skeleton (fst (FileSystem.set_permissions path user perm root)) = skeleton root).
Proof.
  split.
  - intros a b Hskel. split; [|split].
    + intros name0. unfold FileSystem.search. simpl.
      rewrite <- (search_from_skeleton name0 a), <- (search_from_skeleton name0 b), Hskel.
      reflexivity.
    + intros path.
      rewrite <- (list_directory_skeleton path a), <- (list_directory_skeleton path b), Hskel.
      reflexivity.
    + intros indent.
      rewrite <- (display_tree_skeleton a), <- (display_tree_skeleton b), Hskel.
      reflexivity.
  - intros path user perm root. unfold FileSystem.set_permissions.
    destruct (FileSystem._traverse (parts_of path) root) as [node|] eqn:Hnode;
      [|reflexivity].
    simpl. eapply skeleton_store; [exact Hnode|destruct node; reflexivity].
Qed.

Lemma permissions_not_consulted_witness :
  snd (FileSystem.search "file1.txt"
         (fst (FileSystem.set_permissions "dir" "user1" "rwx" FileSystem.scenario)))
  = snd (FileSystem.search "file1.txt" FileSystem.scenario).
Proof.
  destruct permissions_not_consulted as [Hsame Hset].
  apply (Hsame _ _ (Hset "dir" "user1" "rwx" FileSystem.scenario)).
Defined.

(** ** display_tree *)

Lemma app_empty_r (s : string) : s +:+ "" = s.
Proof. induction s as [|c s IH]; [reflexivity|]. rewrite app_cons, IH. reflexivity. Qed.

Lemma display_tree_walk node : forall indent keys,
  display_tree node (indent +:+ pad (length keys))
  = map (fun entry => line_of indent (length (fst entry)) (snd entry)) (walk node keys).
Proof.
  induction node as [n f d p IH] using FileSystemNode_ind. intros indent keys.
  rewrite display_tree_unfold, walk_unfold. cbn [name is_file children map fst snd].
  unfold line_of at 1. cbn [name is_file].
  destruct f; [reflexivity|]. f_equal.
  induction IH as [|[k child] d IHchild _ IHd]; [reflexivity|].
  simpl. rewrite List.map_app, <- IHd. f_equal.
  rewrite <- IHchild. f_equal.
  rewrite length_app, Nat.add_1_r. simpl. rewrite app_assoc. reflexivity.
Qed.

(** X12: [display_tree] prints one line for every node under the root, in
    the depth-first order in which [search] visits them: the indentation
    given, two more spaces for every level below the root, then "- " for a
    file and "+ " for a directory, then the name of the node. *)
Theorem display_tree_lines (root : FileSystemNode) (indent : string) :
  display_tree root indent
  = map (fun entry => line_of indent (length (fst entry)) (snd entry)) (walk root []) /\
  length (display_tree root indent) = length (walk root []).
Proof.
  assert (H : display_tree root indent
              = map (fun entry => line_of indent (length (fst entry)) (snd entry))
                  (walk root [])).
  { rewrite <- (display_tree_walk root indent []). simpl. rewrite app_empty_r. reflexivity. }
  split; [exact H|]. rewrite H. apply length_map.
Qed.

(** ** Keys and names *)

Section ForallbEntries.
Context {V : Type} (Q : string * V -> bool).
Implicit Types (d : list (string * V)).

Lemma forallb_get_entry k v d :
  forallb Q d = true -> Dict.get k d = Some v -> Q (k, v) = true.
Proof.
  induction d as [|[k' v'] d IH]; simpl; [discriminate|].
  intros H. apply andb_prop in H as [Hv Hd].
  destruct (String.eqb_spec k' k) as [->|_]; [intros [= <-]; exact Hv|auto].
Qed.

Lemma forallb_replace_entry k v d :
  forallb Q d = true -> Q (k, v) = true -> forallb Q (Dict.replace k v d) = true.
Proof.
  intros H Hv. induction d as [|[k' v'] d IH]; simpl; [reflexivity|].
  simpl in H. apply andb_prop in H as [Hv' Hd].
  destruct (String.eqb_spec k' k) as [->|_]; simpl.
  - rewrite Hv, Hd. reflexivity.
  - rewrite Hv', IH by exact Hd. reflexivity.
Qed.

Lemma forallb_del_entry k d : forallb Q d = true -> forallb Q (Dict.del k d) = true.
Proof.
  induction d as [|[k' v'] d IH]; simpl; [reflexivity|].
  intros H. apply andb_prop in H as [Hv' Hd].
  destruct (String.eqb k' k); simpl; [auto|].
  rewrite Hv', IH by exact Hd. reflexivity.
Qed.
End ForallbEntries.

Lemma forallb_andb {A : Type} (f g : A -> bool) (l : list A) :
  forallb (fun x => f x && g x) l = forallb f l && forallb g l.
Proof.
  induction l as [|x l IH]; simpl; [reflexivity|]. rewrite IH.
  destruct (f x), (g x), (forallb f l), (forallb g l); reflexivity.
Qed.

Lemma named_by_keys_entries node :
  named_by_keys node = forallb entry_named (children node).
Proof.
  unfold named_by_keys. rewrite everywhere_unfold. unfold keys_are_names.
  unfold entry_named. rewrite forallb_andb. reflexivity.
Qed.

Lemma named_child key child node :
  named_by_keys node = true -> Node.get_child key node = Some child ->
  name child = key /\ named_by_keys child = true.
Proof.
  rewrite named_by_keys_entries. intros H Hget.
  pose proof (forallb_get_entry entry_named _ _ _ H Hget) as He.
  apply andb_prop in He as [Hk Hc]. simpl in Hk.
  apply String.eqb_eq in Hk. auto.
Qed.

Lemma named_put_child key child node :
  named_by_keys node = true -> named_by_keys child = true -> name child = key ->
  named_by_keys (Node.put_child key child node) = true.
Proof.
  rewrite (named_by_keys_entries node), (named_by_keys_entries (Node.put_child _ _ _)).
  intros H Hc Hname. simpl.
  apply forallb_replace_entry; [exact H|].
  unfold entry_named. simpl. rewrite Hname, String.eqb_refl, Hc. reflexivity.
Qed.

Lemma named_added key child node :
  named_by_keys node = true -> named_by_keys child = true -> name child = key ->
  named_by_keys (Node.with_children node (children node ++ [(key, child)])) = true.
Proof.
  rewrite (named_by_keys_entries node), (named_by_keys_entries (Node.with_children _ _)).
  intros H Hc Hname. simpl.
  rewrite forallb_app, H. unfold entry_named. simpl.
  rewrite Hname, String.eqb_refl, Hc. reflexivity.
Qed.

Lemma named_remove_child key node :
  named_by_keys node = true -> named_by_keys (fst (Node.remove_child key node)) = true.
Proof.
  intros H. unfold Node.remove_child.
  destruct (children node) as [|entry d] eqn:Hd; [exact H|]. rewrite <- Hd.
  destruct (negb _); [exact H|]. simpl.
  rewrite named_by_keys_entries in *. simpl. apply forallb_del_entry, H.
Qed.

Lemma named_with_permissions node perms :
  named_by_keys node = true -> named_by_keys (Node.with_permissions node perms) = true.
Proof. rewrite !named_by_keys_entries. auto. Qed.

Lemma named_traverse path : forall root node,
  named_by_keys root = true -> FileSystem._traverse path root = Some node ->
  named_by_keys node = true.
Proof.
  unfold FileSystem._traverse.
  induction path as [|part rest IH]; intros root node H; simpl; [congruence|].
  destruct (is_file root); [discriminate|].
  destruct (Node.get_child part root) as [child|] eqn:Hget.
  - apply IH. apply (named_child _ _ _ H Hget).
  - rewrite traverse_from_None. discriminate.
Qed.

Lemma name_store path node' : forall root node,
  FileSystem._traverse path root = Some node -> name node' = name node ->
  name (Node.store path node' root) = name root.
Proof.
  destruct path as [|part rest]; intros root node; simpl.
  - unfold FileSystem._traverse. simpl. congruence.
  - intros _ _. destruct (Node.get_child part root); reflexivity.
Qed.

Lemma named_store path node' : forall root node,
  named_by_keys root = true -> named_by_keys node' = true ->
  FileSystem._traverse path root = Some node -> name node' = name node ->
  named_by_keys (Node.store path node' root) = true.
Proof.
  induction path as [|part rest IH]; intros root node H H' Hnode Hname; [exact H'|].
  unfold FileSystem._traverse in Hnode. rewrite traverse_from_cons in Hnode.
  destruct (is_file root); [discriminate|].
  simpl. destruct (Node.get_child part root) as [child|] eqn:Hget; [|exact H].
  destruct (named_child _ _ _ H Hget) as [Hk Hc].
  apply named_put_child; [exact H| |].
  - apply (IH child node); assumption.
  - rewrite (name_store rest node' child node); assumption.
Qed.

Lemma name_create_from path file parts current :
  name (fst (FileSystem.create_from path file parts current)) = name current.
Proof.
  destruct (create_from_frame path file parts current [] current eq_refl)
    as (found' & added & Hfound' & Hname & _).
  simpl in Hfound'. injection Hfound' as <-. exact Hname.
Qed.

Lemma named_create_from path file parts : forall current,
  named_by_keys current = true ->
  named_by_keys (fst (FileSystem.create_from path file parts current)) = true.
Proof.
  induction parts as [|part rest IH]; intros current H.
  - simpl. destruct (Bool.eqb _ _); exact H.
  - destruct (is_file current) eqn:Hdir; [simpl; rewrite Hdir; exact H|].
    destruct (Node.get_child part current) as [child|] eqn:Hget.
    + rewrite (create_from_present _ _ _ _ _ _ Hdir Hget). cbn [fst].
      destruct (named_child _ _ _ H Hget) as [Hk Hc].
      apply named_put_child; [exact H|apply IH, Hc|].
      rewrite name_create_from. exact Hk.
    + rewrite (create_from_missing _ _ _ _ _ Hdir Hget). cbn [fst].
      apply named_added; [exact H|apply IH; reflexivity|].
      apply name_create_from.
Qed.

Lemma named_state_after op root :
  named_by_keys root = true -> named_by_keys (state_after op root) = true.
Proof.
  intros H. destruct op as [path file|path|path|name0|path user perm|path user]; simpl.
  - apply named_create_from, H.
  - unfold FileSystem.delete.
    destruct (FileSystem._traverse _ root) as [parent|] eqn:Hparent; [|exact H].
    pose proof (named_remove_child (last_part (parts_of path)) parent
                  (named_traverse _ _ _ H Hparent)) as Hrem.
    pose proof (remove_child_facts (last_part (parts_of path)) parent) as Heff.
    destruct (Node.remove_child _ parent) as [parent' r]. simpl in *.
    destruct Heff as (_ & _ & _ & _ & _ & Hn & _).
    eapply named_store; eauto.
  - unfold FileSystem.list_directory.
    destruct (FileSystem._traverse _ root) as [node|]; [|exact H].
    destruct (is_file node); exact H.
  - exact H.
  - unfold FileSystem.set_permissions.
    destruct (FileSystem._traverse _ root) as [node|] eqn:Hnode; [|exact H].
    simpl. eapply named_store; [exact H| |exact Hnode|reflexivity].
    apply named_with_permissions. eapply named_traverse; eauto.
  - unfold FileSystem.get_permissions.
    destruct (FileSystem._traverse _ root) as [node|]; exact H.
Qed.

(** X13: in every tree that a sequence of operations makes from the new
    tree, every node is stored under its own name and no key contains a
    '/'; so a path that resolves resolves to a node named by its last
    segment. *)
Theorem made_trees_are_named (ops : list operation) :
  named_by_keys (after_all ops) = true /\
  slash_free_keys (after_all ops) = true /\
  (forall before last node,
      FileSystem._traverse (before ++ [last]) (after_all ops) = Some node ->
      name node = last /\ PyStr.slash_free (name node) = true).
Proof.
  assert (H : named_by_keys (after_all ops) = true /\ slash_free_keys (after_all ops) = true).
  { unfold after_all. induction ops as [|op ops IH] using rev_ind; [split; reflexivity|].
    rewrite fold_left_app. simpl. destruct IH as [IHn IHs].
    split; [apply named_state_after, IHn|apply slash_free_keys_state_after, IHs]. }
  destruct H as [Hn Hs]. split; [exact Hn|]. split; [exact Hs|].
  intros before last node Hnode. rewrite traverse_snoc in Hnode.
  destruct (FileSystem._traverse before (after_all ops)) as [parent|] eqn:Hparent;
    [|discriminate].
  destruct (is_file parent); [discriminate|].
  destruct (named_child _ _ _ (named_traverse _ _ _ Hn Hparent) Hnode) as [Hname _].
  split; [exact Hname|].
  pose proof (everywhere_traverse keys_slash_free _ _ _ Hs Hparent) as Hp.
  apply everywhere_elim in Hp as [Hp _]. unfold keys_slash_free in Hp.
  rewrite Hname. rewrite forallb_forall in Hp. apply Hp.
  apply (get_in_keys _ _ _ Hnode).
Qed.

Lemma made_trees_are_named_witness :
  name (mkNode "file3.txt" true [] ∅) = "file3.txt" /\
  PyStr.slash_free "file3.txt" = true.
Proof.
  destruct (made_trees_are_named
              [OpCreate "dir/subdir" false;
               OpCreate "dir/subdir/file1.txt" true;
               OpCreate "dir/file3.txt" true]) as (_ & _ & Hlast).
  apply (Hlast ["dir"] "file3.txt" (mkNode "file3.txt" true [] ∅)). reflexivity.
Defined.

(** ** Paths made from segments *)

Lemma split_segment x :
  PyStr.slash_free x = true -> PyStr.split x = [x].
Proof.
  induction x as [|c x IH]; simpl; [reflexivity|].
  intros H. apply andb_prop in H as [Hc Hx].
  destruct (PyStr.is_slash c); [discriminate|]. rewrite (IH Hx). reflexivity.
Qed.

Lemma split_app_slash x rest :
  PyStr.slash_free x = true ->
  PyStr.split (x +:+ "/" +:+ rest) = x :: PyStr.split rest.
Proof.
  induction x as [|c x IH]; [reflexivity|].
  intros H. simpl in H. apply andb_prop in H as [Hc Hx].
  rewrite app_cons. simpl. destruct (PyStr.is_slash c); [discriminate|].
  rewrite (IH Hx). reflexivity.
Qed.

Lemma split_join (parts : list string) :
  parts <> [] -> Forall (fun part => PyStr.slash_free part = true) parts ->
  PyStr.split (PyStr.join parts) = parts.
Proof.
  unfold PyStr.join. induction parts as [|x parts IH]; [contradiction|]. intros _ H.
  apply Forall_cons in H as [Hx Hparts].
  destruct parts as [|y parts]; [apply split_segment, Hx|].
  change (String.concat "/" (x :: y :: parts))
    with (x +:+ "/" +:+ String.concat "/" (y :: parts)).
  rewrite split_app_slash by exact Hx. rewrite IH; [reflexivity|discriminate|exact Hparts].
Qed.

Lemma parts_of_join (parts : list string) :
  parts <> [] ->
  Forall (fun part => PyStr.slash_free part = true) parts ->
  Forall (fun part => PyStr.nonempty part = true) parts ->
  parts_of (PyStr.join parts) = parts.
Proof.
  intros Hne Hfree Hfull. unfold parts_of.
  pose proof (trimmed_joined parts Hfree) as [Hlead Htrail].
  unfold joined in *. rewrite filter_nonempty_all in * by exact Hfull.
  unfold PyStr.strip. rewrite lstrip_no_lead by exact Hlead. rewrite Htrail.
  apply split_join; assumption.
Qed.

(** X14: a path written by joining segments with '/' is parsed back into
    those segments, provided there is at least one segment and every
    segment is non-empty and without '/'. *)
Theorem join_then_parse (parts : list string) :
  parts <> [] ->
  Forall (fun part => PyStr.slash_free part = true) parts ->
  Forall (fun part => PyStr.nonempty part = true) parts ->
  parts_of (PyStr.join parts) = parts /\
  parts_of ("/" +:+ PyStr.join parts +:+ "/") = parts.
Proof.
  intros Hne Hfree Hfull. split; [apply parts_of_join; assumption|].
  change (parts_of ("/" +:+ PyStr.join parts +:+ "/"))
    with (parts_of (PyStr.join parts +:+ "/")).
  unfold parts_of. rewrite strip_app_slash.
  apply parts_of_join; assumption.
Qed.

Lemma join_then_parse_witness :
  parts_of (PyStr.join ["dir"; "subdir"; "file1.txt"]) = ["dir"; "subdir"; "file1.txt"].
Proof.
  apply (join_then_parse ["dir"; "subdir"; "file1.txt"]).
  - discriminate.
  - repeat constructor.
  - repeat constructor.
Defined.

(** X15: a node below the root that a traversal reaches through non-empty
    keys is found by [search] of its name under the path that joins those
    keys, and that path, given back to the interface, resolves to the same
    node; this for every tree whose keys contain no '/'. *)
Theorem search_result_resolves (root : FileSystemNode) (keys : list string)
    (node : FileSystemNode) :
  slash_free_keys root = true ->
  FileSystem._traverse keys root = Some node ->
  keys <> [] ->
  Forall (fun key => PyStr.nonempty key = true) keys ->
  exists results,
    FileSystem.search (name node) root = (root, Ok results) /\
    In (PyStr.join keys) results /\
    FileSystem._traverse (parts_of (PyStr.join keys)) root = Some node.
Proof.
  intros Hroot Hnode Hne Hfull.
  assert (Hfree : Forall (fun key => PyStr.slash_free key = true) keys).
  { clear Hne Hfull. revert root node Hroot Hnode.
    induction keys as [|key keys IH]; intros root node Hroot Hnode; [constructor|].
    unfold FileSystem._traverse in Hnode. rewrite traverse_from_cons in Hnode.
    destruct (is_file root); [discriminate|].
    destruct (Node.get_child key root) as [child|] eqn:Hget;
      [|rewrite traverse_from_None in Hnode; discriminate].
    pose proof (everywhere_child keys_slash_free _ _ _ Hroot Hget) as Hchild.
    apply everywhere_elim in Hroot as [Hks _]. unfold keys_slash_free in Hks.
    rewrite forallb_forall in Hks.
    constructor; [apply Hks, (get_in_keys _ _ _ Hget)|].
    apply (IH child node Hchild Hnode). }
  exists (matches (name node) (walk root [])).
  split.
  { unfold FileSystem.search. do 2 f_equal.
    apply (search_from_walk (name node) root [] Hroot). constructor. }
  split.
  - assert (Hshown : shown keys = PyStr.join keys).
    { unfold shown, joined. rewrite filter_nonempty_all by exact Hfull.
      destruct (PyStr.join keys) eqn:E; [|reflexivity].
      exfalso. revert E. apply concat_nonempty; assumption. }
    rewrite <- Hshown. unfold matches.
    apply (in_map (fun entry => shown (fst entry)) _ (keys, node)).
    apply List.filter_In. split.
    + apply (traverse_walk keys root [] node Hnode).
    + simpl. apply String.eqb_refl.
  - rewrite parts_of_join by assumption. exact Hnode.
Qed.

Lemma search_result_resolves_witness :
  exists results,
    FileSystem.search "file1.txt" FileSystem.scenario = (FileSystem.scenario, Ok results) /\
    In "dir/subdir/file1.txt" results /\
    FileSystem._traverse (parts_of "dir/subdir/file1.txt") FileSystem.scenario
    = Some (mkNode "file1.txt" true [] ∅).
Proof.
  apply (search_result_resolves FileSystem.scenario ["dir"; "subdir"; "file1.txt"]
           (mkNode "file1.txt" true [] ∅)).
  - reflexivity.
  - reflexivity.
  - discriminate.
  - repeat constructor.
Defined.

(** ** Listing and traversal *)

Lemma in_keys_get {V : Type} k (d : list (string * V)) :
  In k (Dict.keys d) -> exists v, Dict.get k d = Some v.
Proof.
  unfold Dict.keys. induction d as [|[k' v'] d IH]; simpl; [contradiction|].
  intros [->|H].
  - rewrite String.eqb_refl. eauto.
  - destruct (String.eqb k' k); eauto.
Qed.

(** X16: [list_directory] succeeds exactly on the paths that resolve to a
    directory, and the names it returns are exactly the segments by which
    the path can be continued one step: a name is listed if and only if
    the path followed by that name resolves. *)
Theorem list_directory_lists_children (path : string) (root : FileSystemNode) :
  (forall names,
      FileSystem.list_directory path root = (root, Ok names) ->
      forall key, In key names <->
                  exists child, FileSystem._traverse (parts_of path ++ [key]) root
                                = Some child) /\
  ((exists names, FileSystem.list_directory path root = (root, Ok names)) <->
   (exists dir, FileSystem._traverse (parts_of path) root = Some dir /\
                is_file dir = false)) /\
  ((forall names, FileSystem.list_directory path root <> (root, Ok names)) ->
   FileSystem.list_directory path root = (root, Raise NotADirectory)).
Proof.
  unfold FileSystem.list_directory.
  split; [|split].
  - intros names Hlist key. rewrite traverse_snoc.
    destruct (FileSystem._traverse (parts_of path) root) as [dir|]; [|discriminate].
    destruct (is_file dir); [discriminate|]. injection Hlist as <-.
    split.
    + apply in_keys_get.
    + intros [child Hchild]. apply (get_in_keys _ _ _ Hchild).
  - split.
    + intros [names Hlist].
      destruct (FileSystem._traverse (parts_of path) root) as [dir|]; [|discriminate].
      destruct (is_file dir) eqn:Hdir; [discriminate|]. eauto.
    + intros (dir & -> & ->). eauto.
  - intros Hnot.
    destruct (FileSystem._traverse (parts_of path) root) as [dir|]; [|reflexivity].
    destruct (is_file dir); [reflexivity|].
    exfalso. apply (Hnot _ eq_refl).
Qed.

Lemma list_directory_lists_children_witness :
  exists child,
    FileSystem._traverse (parts_of "dir" ++ ["file3.txt"]) FileSystem.scenario = Some child.
Proof.
  destruct (list_directory_lists_children "dir" FileSystem.scenario) as [Hlist _].
  apply (Hlist ["subdir"; "file3.txt"] eq_refl "file3.txt").
  right. left. reflexivity.
Defined.
